(** * LibElectron: the Neutron wrapper over an embedded CLIPS engine

    A shallow embedding of [Environment.h] / [Environment.cc]: the engine
    handle ([Environment]), the external-address registry
    ([ExternalAddressCache]), value extraction ([extractData]) and the
    expression builder ([FunctionBuilder]), followed by the properties the
    specification states about them.

    Conventions.  Pointers are natural numbers with [NULL] = 0; C [int]s are
    integers of [Z]; a [throw Problem(msg)] is the [Throw] outcome of
    [result]; an out-parameter is returned next to the outcome.  The engine
    itself (everything reached through [clips.h]) is outside the sources: its
    primitives are the fields of the record [Engine], and what the C++ runtime
    leaves implementation-defined is the record [Host]. *)

From Stdlib Require Import ZArith String Ascii DecimalString HexadecimalString.
From stdpp Require Import gmap strings list functions.

Open Scope Z_scope.

(** ** Pointers, host types, floating-point carriers *)

Abbreviation ptr := N (only parsing).
Abbreviation NULL := 0%N (only parsing).

(** A host type [T] of a template instantiation, identified by a number. *)
Abbreviation HostType := positive (only parsing).

(** Floating-point values are only carried around, never computed with:
    they are represented by their bit patterns. *)
Inductive float : Type := Float32 (bits : Z).
Inductive double : Type := Float64 (bits : Z).

(** ** [class Problem] *)

Inductive Problem : Type := mkProblem (_msg : string).

Definition message (p : Problem) : string :=
  match p with mkProblem m => m end.

#[global] Instance Problem_eq_dec : EqDecision Problem.
Proof. solve_decision. Defined.

(** Outcome of a call that either returns or throws a [Problem]. *)
Inductive result (A : Type) : Type :=
| Normal (a : A)
| Throw (p : Problem).
Arguments Normal {A} a.
Arguments Throw {A} p.

(** [s] occurs in [msg]. *)
Definition contains (msg s : string) : Prop :=
  exists pre post, msg = pre +:+ s +:+ post.

(** ** The engine's tag space

    Modelled from the spec: the type tags of [clips.h] (the header is not
    part of the sources).  The spec names the tags; the numbers are the ones
    of the engine's [constant.h]. *)

Definition FLOAT : Z := 0.
Definition INTEGER : Z := 1.
Definition SYMBOL : Z := 2.
Definition STRING : Z := 3.
Definition MULTIFIELD : Z := 4.
Definition EXTERNAL_ADDRESS : Z := 5.
Definition FACT_ADDRESS : Z := 6.
Definition INSTANCE_ADDRESS : Z := 7.
Definition INSTANCE_NAME : Z := 8.
Definition RVOID : Z := 175.

(** [enum class DataObjectType], restricted to the enumerators the sources
    switch on; every other tag value is [OtherType]. *)
Inductive DataObjectType : Type :=
| Float | Integer | Symbol | String_ | Multifield | ExternalAddress
| FactAddress | InstanceAddress | InstanceName | OtherType (tag : Z).

(** [static_cast<DataObjectType>(args->type)]. *)
Definition to_DataObjectType (t : Z) : DataObjectType :=
  if t =? FLOAT then Float
  else if t =? INTEGER then Integer
  else if t =? SYMBOL then Symbol
  else if t =? STRING then String_
  else if t =? MULTIFIELD then Multifield
  else if t =? EXTERNAL_ADDRESS then ExternalAddress
  else if t =? FACT_ADDRESS then FactAddress
  else if t =? INSTANCE_ADDRESS then InstanceAddress
  else if t =? INSTANCE_NAME then InstanceName
  else OtherType t.

(** ** Tagged values and expression nodes *)

(** [DATA_OBJECT]: tag, payload and the inclusive range of a multifield. *)
Record DATA_OBJECT : Type := mkDataObject {
  do_type : Z;
  do_value : ptr;
  do_begin : Z;
  do_end : Z
}.

(** [struct expr] (also [FUNCTION_REFERENCE]). *)
Record expr : Type := mkExpr {
  type : Z;
  value : ptr;
  argList : ptr;
  nextArg : ptr
}.

#[global] Instance expr_eq_dec : EqDecision expr.
Proof. solve_decision. Defined.

(** ** The engine and the host runtime, as the sources see them *)

Record Engine : Type := mkEngine {
  (** [EnvFunctionCall(env, name, args, obj)]: status and the object written. *)
  EnvFunctionCall : ptr -> string -> string -> Z * DATA_OBJECT;
  (** [EnvLoad(env, path)]. *)
  EnvLoad : ptr -> string -> Z;
  EnvTrueSymbol : ptr -> ptr;
  EnvFalseSymbol : ptr -> ptr;
  EnvAddSymbol : ptr -> string -> ptr;
  EnvAddLong : ptr -> Z -> ptr;
  EnvAddDouble : ptr -> double -> ptr;
  (** [EnvAddExternalAddress(env, pointer, typeId)]. *)
  EnvAddExternalAddress : ptr -> ptr -> Z -> ptr;
  (** [GetFunctionReference(env, name, ref)]: the type and the callable the
      name resolves to, if any. *)
  GetFunctionReference : ptr -> string -> option (Z * ptr);
  (** [EvaluateExpression(env, ref, ret)] on the call rooted at [ref], its
      arguments read from the expression memory: the error flag and the
      object written to [ret]. *)
  EvaluateExpression : ptr -> expr -> gmap N expr -> Z * DATA_OBJECT;
  (** The accessor macros on hash nodes. *)
  DOPToString : ptr -> string;
  DOPToInteger : ptr -> Z;
  DOPToDouble : ptr -> double;
  externalAddressHashNode_type : ptr -> Z;
  DOPToExternalAddress : ptr -> ptr
}.

Record Host : Type := mkHost {
  (** [stream << (void* )p]. *)
  show_pointer : ptr -> string;
  (** [stream << (double)d]. *)
  show_double : double -> string;
  (** [typeid(T).name()]. *)
  typeid_name : HostType -> string;
  (** The implicit conversion of a [float] argument to [double]. *)
  float_to_double : float -> double
}.

(** [stream << (int)z], in the decimal and in the hexadecimal base (where an
    [int] is printed as the [unsigned int] of the same bits). *)
Definition show_dec (z : Z) : string :=
  DecimalString.NilZero.string_of_int (Z.to_int z).

Definition show_hex (z : Z) : string :=
  HexadecimalString.NilZero.string_of_uint (N.to_hex_uint (Z.to_N (z mod 2 ^ 32))).

(** ** [class Environment] *)

Module Environment.

Record t : Type := mk {
  reclaim : bool;
  env : ptr
}.

(** [Environment(void* theEnv)]: a borrowed view, never destroyed. *)
Definition borrow (theEnv : ptr) : t := {| reclaim := false; env := theEnv |}.

Definition getRawEnvironment (this : t) : ptr := env this.

Section Engine.
Context (E : Engine).

(** [funcall(functionName, args, obj)]. *)
Definition funcall (this : t) (functionName args : string)
  : result unit * DATA_OBJECT :=
  let '(status, obj) := EnvFunctionCall E (env this) functionName args in
  if negb (status =? 0) then
    (Throw (mkProblem ("Function call of (" +:+ functionName +:+ " "
                         +:+ args +:+ ") failed!")), obj)
  else (Normal tt, obj).

(** [funcall(functionName, args)]: the result lands in a local. *)
Definition funcall_discard (this : t) (functionName args : string)
  : result unit :=
  fst (funcall this functionName args).

(** [funcall(functionName)]. *)
Definition funcall_name (this : t) (functionName : string) : result unit :=
  funcall_discard this functionName EmptyString.

(** [funcall(functionName, ret)]. *)
Definition funcall_ret (this : t) (functionName : string)
  : result unit * DATA_OBJECT :=
  funcall this functionName EmptyString.

(** [loadFile(path)]. *)
Definition loadFile (this : t) (path : string) : result unit :=
  match EnvLoad E (env this) path with
  | -1 => Throw (mkProblem ("Unable to parse file: " +:+ path))
  | 0 => Throw (mkProblem ("Unable to load file: " +:+ path))
  | _ => Normal tt
  end.

Definition addSymbol (this : t) (symbol : string) : ptr :=
  EnvAddSymbol E (env this) symbol.

(** [addNumber] on the integer widths. *)
Definition addNumber (this : t) (number : Z) : ptr :=
  EnvAddLong E (env this) number.

Definition addNumber_double (this : t) (number : double) : ptr :=
  EnvAddDouble E (env this) number.

End Engine.

End Environment.

(** ** [ExternalAddressCache<T>]

    One static [std::map<void*, int>] per host type [T]. *)

Module ExternalAddressCache.

Abbreviation t := (HostType -> gmap N Z) (only parsing).

(** No instantiation has registered anything. *)
Definition empty : t := fun _ => ∅.

Definition unregistered : string :=
  "Attempted to get the external address index of something not registered from using an unregistered environment!".

(** [getExternalAddressId(void* env)]. *)
Definition getExternalAddressId_raw (T : HostType) (env : ptr) (_cache : t)
  : result Z :=
  match _cache T !! env with
  | Some found => Normal found
  | None => Throw (mkProblem unregistered)
  end.

(** [getExternalAddressId(Environment* env)]. *)
Definition getExternalAddressId (T : HostType) (env : Environment.t) (_cache : t)
  : result Z :=
  getExternalAddressId_raw T (Environment.getRawEnvironment env) _cache.

(** [registerExternalAddressId(void* env, int result)]:
    [_cache.emplace(env, result)] inserts only where the key is absent. *)
Definition registerExternalAddressId_raw (T : HostType) (env : ptr) (res : Z)
    (_cache : t) : t :=
  match _cache T !! env with
  | Some _ => _cache
  | None => <[T := <[env := res]> (_cache T)]> _cache
  end.

(** [registerExternalAddressId(Environment* env, int result)]. *)
Definition registerExternalAddressId (T : HostType) (env : Environment.t)
    (res : Z) (_cache : t) : t :=
  registerExternalAddressId_raw T (Environment.getRawEnvironment env) res _cache.

(** The registry after a history of registrations, oldest first. *)
Definition after (history : list (HostType * Environment.t * Z)) : t :=
  fold_left (fun c r => registerExternalAddressId r.1.1 r.1.2 r.2 c) history empty.

End ExternalAddressCache.

(** ** Checked casts of external addresses ([Environment.h]) *)

Section ExternalAddress.
Context (E : Engine) (H : Host).

(** [Environment::getExternalAddressId<T>()]. *)
Definition getExternalAddressId (T : HostType) (this : Environment.t)
    (_cache : ExternalAddressCache.t) : result Z :=
  ExternalAddressCache.getExternalAddressId T this _cache.

(** [Environment::addExternalAddress<T>(value)]. *)
Definition addExternalAddress (T : HostType) (this : Environment.t)
    (_cache : ExternalAddressCache.t) (v : ptr) : result ptr :=
  match ExternalAddressCache.getExternalAddressId T this _cache with
  | Normal id => Normal (EnvAddExternalAddress E (Environment.env this) v id)
  | Throw p => Throw p
  end.

(** [Environment::externalAddressIsOfType<T>(ptr)]. *)
Definition externalAddressIsOfType (T : HostType) (this : Environment.t)
    (_cache : ExternalAddressCache.t) (dobj : DATA_OBJECT) : result bool :=
  match getExternalAddressId T this _cache with
  | Normal id => Normal (externalAddressHashNode_type E (do_value dobj) =? id)
  | Throw p => Throw p
  end.

(** [Environment::fromExternalAddress<T>(ptr)]. *)
Definition fromExternalAddress (T : HostType) (this : Environment.t)
    (_cache : ExternalAddressCache.t) (dobj : DATA_OBJECT) : result ptr :=
  match externalAddressIsOfType T this _cache dobj with
  | Normal true => Normal (DOPToExternalAddress E (do_value dobj))
  | Normal false =>
      Throw (mkProblem ("Attempted to cast external address to "
                          +:+ typeid_name H T
                          +:+ " when it is not tagged as such!"))
  | Throw p => Throw p
  end.

(** [extractData(env, dobj, bool& value)]. *)
Definition extractData_bool (env : Environment.t) (dobj : DATA_OBJECT) : bool :=
  negb (do_value dobj =? EnvFalseSymbol E (Environment.getRawEnvironment env))%N
  && (do_type dobj =? SYMBOL).

(** [funcall(functionName, args, bool& ret)]: [ret] is written only when
    the call returns. *)
Definition funcall_bool (this : Environment.t) (functionName args : string)
  : result bool :=
  match Environment.funcall E this functionName args with
  | (Normal _, dat) => Normal (extractData_bool this dat)
  | (Throw p, _) => Throw p
  end.

End ExternalAddress.

(** ** The engine's expression memory

    Modelled from the spec: the engine's install / deinstall / reclaim
    primitives on expression nodes ([ExpressionInstall],
    [ExpressionDeinstall], [ReturnExpression], [GenConstant]); the engine is
    not part of the sources.  Install and deinstall visit a node, then the
    nodes under its [argList], then the nodes along its [nextArg]; reclaim
    gives the same nodes back to the allocator.  The bookkeeping is kept as a
    log of the visits. *)

Inductive Event : Type :=
| Installed (node : N)
| Deinstalled (node : N)
| DeinstalledReference (reference : expr)
| Returned (node : N)
| Evaluated (reference : expr).

#[global] Instance Event_eq_dec : EqDecision Event.
Proof. solve_decision. Defined.

Record Memory : Type := mkMemory {
  heap : gmap N expr;
  next : N;
  log : list Event
}.

(** The nodes reached from [p], in visiting order.  The walk is bounded by
    [fuel]; a pointer to no node (dereferenced in C without a check) ends
    it. *)
Fixpoint reach (fuel : nat) (h : gmap N expr) (p : ptr) : list N :=
  match fuel with
  | O => []
  | S fuel' =>
      if (p =? NULL)%N then []
      else match h !! p with
           | None => []
           | Some e => p :: reach fuel' h (argList e) ++ reach fuel' h (nextArg e)
           end
  end.

(** Enough fuel for every acyclic structure of the heap. *)
Definition reachable (m : Memory) (p : ptr) : list N :=
  reach (S (size (heap m))) (heap m) p.

Definition record (events : list Event) (m : Memory) : Memory :=
  {| heap := heap m; next := next m; log := log m ++ events |}.

(** [GenConstant(env, type, value)]: a fresh node without links. *)
Definition GenConstant (ty : Z) (v : ptr) (m : Memory) : ptr * Memory :=
  (next m,
   {| heap := <[next m := mkExpr ty v NULL NULL]> (heap m);
      next := N.succ (next m);
      log := log m |}).

(** [ExpressionInstall(env, expr)]. *)
Definition ExpressionInstall (p : ptr) (m : Memory) : Memory :=
  record (Installed <$> reachable m p) m.

(** [ExpressionDeinstall(env, &reference)] on a node that lives outside the
    expression heap, as a member of the caller. *)
Definition ExpressionDeinstall (reference : expr) (m : Memory) : Memory :=
  record (DeinstalledReference reference
            :: (Deinstalled <$> (reachable m (argList reference)
                                   ++ reachable m (nextArg reference)))) m.

(** [ReturnExpression(env, expr)]. *)
Definition ReturnExpression (p : ptr) (m : Memory) : Memory :=
  let waste := reachable m p in
  {| heap := foldr delete (heap m) waste;
     next := next m;
     log := log m ++ (Returned <$> waste) |}.

(** [curr->nextArg = tmp]; a store through a pointer to no node is not
    modelled (the heap is left as it is). *)
Definition set_nextArg (tmp : ptr) (e : expr) : expr :=
  {| type := type e; value := value e; argList := argList e; nextArg := tmp |}.

Definition store_nextArg (at_ tmp : ptr) (m : Memory) : Memory :=
  {| heap := alter (set_nextArg tmp) at_ (heap m); next := next m; log := log m |}.

(** The events a memory has recorded since an earlier one. *)
Definition since (before after : Memory) : list Event :=
  drop (length (log before)) (log after).

(** ** [std::stringstream], as far as [invoke] uses it: the characters
    written and whether the integer base has been switched to [std::hex]. *)

Record stringstream : Type := mkStream {
  str : string;
  hex : bool
}.

Definition put (s : string) (stream : stringstream) : stringstream :=
  {| str := str stream +:+ s; hex := hex stream |}.

(** [stream << (int)z]. *)
Definition put_int (z : Z) (stream : stringstream) : stringstream :=
  put (if hex stream then show_hex z else show_dec z) stream.

Definition dquote : string := String "034"%char EmptyString.

(** ** [class FunctionBuilder] *)

(** The arguments [addArgument] is overloaded on.  The overload on
    [std::function], which runs a callback of the caller on the builder, is
    not among them. *)
Inductive SequenceKind : Type :=
| StdList | StdInitializerList | StdVector | Pack.

#[warnings="-register-all"] Inductive Arg : Type :=
| ABool (v : bool)
| AInt32 (v : Z)
| AInt64 (v : Z)
| AFloat (v : float)
| ADouble (v : double)
| ACharPtr (s : string)
| AString (s : string)
| APointer (T : HostType) (v : ptr)
| ASequence (kind : SequenceKind) (elements : list Arg).

Module FunctionBuilder.

Record t : Type := mk {
  _function : string;
  env : Environment.t;
  _ref : expr;
  curr : ptr;
  functionReferenceSet : bool
}.

(** A builder together with the expression memory it works on. *)
Record Machine : Type := mkMachine {
  this : t;
  memory : Memory
}.

(** Methods run on a machine and return or throw. *)
Definition M (A : Type) : Type := Machine -> result A * Machine.

Definition ret {A} (a : A) : M A := fun s => (Normal a, s).

Definition throw {A} (msg : string) : M A := fun s => (Throw (mkProblem msg), s).

Definition bind {A B} (c : M A) (k : A -> M B) : M B :=
  fun s => match c s with
           | (Normal a, s') => k a s'
           | (Throw p, s') => (Throw p, s')
           end.

Declare Scope builder_scope.
Delimit Scope builder_scope with builder.
Notation "c1 ;; c2" := (bind c1 (fun _ => c2))
  (at level 100, c2 at level 200, right associativity) : builder_scope.
Local Open Scope builder_scope.

(** [for (auto const& element : list) body(element);] *)
Fixpoint for_each {A} (body : A -> M unit) (l : list A) : M unit :=
  match l with
  | [] => ret tt
  | element :: l' => body element ;; for_each body l'
  end.

(** [FunctionBuilder(Environment* e) : env(e) { }].  [curr] and
    [functionReferenceSet] have default member initialisers, [_function] is
    the empty string; [_ref] has no initialiser and keeps whatever its
    storage held, the argument [indeterminate]. *)
Definition new (e : Environment.t) (indeterminate : expr) : t :=
  {| _function := EmptyString;
     env := e;
     _ref := indeterminate;
     curr := NULL;
     functionReferenceSet := false |}.

Definition misuse_install : string :=
  "ERROR: Attempted to build an argument list before setting the target function!".

Definition misuse_invoke : string :=
  "ERROR: attempted to invoke a function builder without setting its function!".

Section Methods.
Context (E : Engine) (H : Host) (_cache : ExternalAddressCache.t).

(** [setFunctionReference(func)].  The engine's [GetFunctionReference]
    clears the reference, and fills in the callable when the name
    resolves. *)
Definition setFunctionReference (func : string) : M unit :=
  fun s =>
    let b := this s in
    match GetFunctionReference E (Environment.env (env b)) func with
    | None =>
        (Throw (mkProblem ("Function " +:+ func +:+ " does not exist!!!!")),
         {| this := {| _function := _function b;
                       env := env b;
                       _ref := mkExpr RVOID NULL NULL NULL;
                       curr := curr b;
                       functionReferenceSet := functionReferenceSet b |};
            memory := memory s |})
    | Some (ty, callable) =>
        (Normal tt,
         {| this := {| _function := func;
                       env := env b;
                       _ref := mkExpr ty callable NULL NULL;
                       curr := curr b;
                       functionReferenceSet := true |};
            memory := memory s |})
    end.

(** [installArgument(uint16 type, void* value)]. *)
Definition installArgument (ty : Z) (v : ptr) : M unit :=
  fun s =>
    let b := this s in
    if functionReferenceSet b then
      let '(tmp, m1) := GenConstant ty v (memory s) in
      let m2 := ExpressionInstall tmp m1 in
      if (argList (_ref b) =? NULL)%N then
        (Normal tt,
         {| this := {| _function := _function b;
                       env := env b;
                       _ref := mkExpr (type (_ref b)) (value (_ref b)) tmp
                                      (nextArg (_ref b));
                       curr := tmp;
                       functionReferenceSet := functionReferenceSet b |};
            memory := m2 |})
      else
        (Normal tt,
         {| this := {| _function := _function b;
                       env := env b;
                       _ref := _ref b;
                       curr := tmp;
                       functionReferenceSet := functionReferenceSet b |};
            memory := store_nextArg (curr b) tmp m2 |})
    else throw misuse_install s.

(** [addArgument(T* value)]: the id lookup may throw before anything is
    installed. *)
Definition addArgument_pointer (T : HostType) (v : ptr) : M unit :=
  fun s =>
    match addExternalAddress E T (env (this s)) _cache v with
    | Normal a => installArgument EXTERNAL_ADDRESS a s
    | Throw p => (Throw p, s)
    end.

(** [addArgument], all overloads; a sequence of any kind adds its elements
    one by one. *)
Fixpoint addArgument (a : Arg) : M unit :=
  fun s =>
    let e := env (this s) in
    let raw := Environment.getRawEnvironment e in
    match a with
    | ABool v =>
        installArgument SYMBOL (if v then EnvTrueSymbol E raw else EnvFalseSymbol E raw) s
    | AInt32 v => installArgument INTEGER (Environment.addNumber E e v) s
    | AInt64 v => installArgument INTEGER (Environment.addNumber E e v) s
    | AFloat v =>
        installArgument FLOAT (Environment.addNumber_double E e (float_to_double H v)) s
    | ADouble v => installArgument FLOAT (Environment.addNumber_double E e v) s
    | ACharPtr str => installArgument STRING (Environment.addSymbol E e str) s
    | AString str => installArgument STRING (Environment.addSymbol E e str) s
    | APointer T v => addArgument_pointer T v s
    | ASequence _ elements =>
        (fix each (l : list Arg) : M unit :=
           match l with
           | [] => ret tt
           | element :: l' => addArgument element ;; each l'
           end) elements s
    end.

(** The lambdas of [invoke]: [installArgument(prefix, body, suffix)] and
    [installAddress(type, value)], whose body is
    [stream << std::hex << value]. *)
Definition render (prefix : string) (body : stringstream -> stringstream)
    (suffix : string) (command : stringstream) : stringstream :=
  put " " (put suffix (body (put prefix (put " " command)))).

Definition put_hex_pointer (v : ptr) (stream : stringstream) : stringstream :=
  {| str := str stream +:+ show_pointer H v; hex := true |}.

Definition renderAddress (label : string) (v : ptr) (command : stringstream)
  : stringstream :=
  render (label +:+ "<0x") (put_hex_pointer v) ">" command.

(** The body of the [switch] on one node of the chain. *)
Definition renderNode (args : expr) (command : stringstream) : stringstream :=
  match to_DataObjectType (type args) with
  | String_ => render dquote (put (DOPToString E (value args))) dquote command
  | Symbol => render EmptyString (put (DOPToString E (value args))) EmptyString command
  | InstanceName => render "[" (put (DOPToString E (value args))) "]" command
  | Integer => render EmptyString (put_int (DOPToInteger E (value args))) EmptyString command
  | Float =>
      render EmptyString (put (show_double H (DOPToDouble E (value args)))) EmptyString command
  | InstanceAddress => renderAddress "InstanceAddress" (value args) command
  | ExternalAddress => renderAddress "ExternalAddress" (value args) command
  | Multifield => renderAddress "MULTIFIELD" (value args) command
  | _ => renderAddress "UNKNOWN_TYPE" (value args) command
  end.

(** [for (auto args = _ref.argList; args; args = args->nextArg)]. *)
Fixpoint renderChain (fuel : nat) (h : gmap N expr) (args : ptr)
    (command : stringstream) : stringstream :=
  match fuel with
  | O => command
  | S fuel' =>
      if (args =? NULL)%N then command
      else match h !! args with
           | None => command
           | Some e => renderChain fuel' h (nextArg e) (renderNode e command)
           end
  end.

(** The text [invoke] reconstructs of the attempted call. *)
Definition renderCall (b : t) (m : Memory) : string :=
  let command := put " " (put (_function b) (put "(" (mkStream EmptyString false))) in
  str (put ")" (renderChain (S (size (heap m))) (heap m) (argList (_ref b)) command)).

(** [Environment::evaluateExpression]: true when the engine reports no
    evaluation error ([TRUE] is 1). *)
Definition evaluateExpression (e : Environment.t) (reference : expr) (m : Memory)
  : bool * DATA_OBJECT * Memory :=
  let '(flag, written) :=
    EvaluateExpression E (Environment.env e) reference (heap m) in
  (negb (flag =? 1), written, record [Evaluated reference] m).

(** [invoke(ret)]; next to the outcome, the contents of [*ret] afterwards. *)
Definition invoke (ret_ : DATA_OBJECT) (s : Machine)
  : result unit * DATA_OBJECT * Machine :=
  let b := this s in
  if negb (functionReferenceSet b) then
    (Throw (mkProblem misuse_invoke), ret_, s)
  else
    let '(ok, written, m) := evaluateExpression (env b) (_ref b) (memory s) in
    if negb ok then
      (Throw (mkProblem ("ERROR: invocation of " +:+ renderCall b m
                           +:+ " yielded an error!")),
       written, {| this := b; memory := m |})
    else (Normal tt, written, {| this := b; memory := m |}).

(** [~FunctionBuilder()]: deinstall the reference, then reclaim the argument
    chain.  The assignments that null the members act on the object that
    ceases to exist; the expression memory is what is left. *)
Definition destroy (s : Machine) : Memory :=
  let b := this s in
  ReturnExpression (argList (_ref b)) (ExpressionDeinstall (_ref b) (memory s)).

(** One call on a builder. *)
Inductive Call : Type :=
| SetFunctionReference (func : string)
| InstallArgument (ty : Z) (v : ptr)
| AddArgument (a : Arg)
| Invoke.

Definition call (c : Call) : M unit :=
  match c with
  | SetFunctionReference func => setFunctionReference func
  | InstallArgument ty v => installArgument ty v
  | AddArgument a => addArgument a
  | Invoke => fun s => let '(r, _, s') := invoke (mkDataObject 0 NULL 0 0) s in (r, s')
  end.

(** A scope that constructs a builder, makes the calls until one throws,
    and leaves: the destructor runs on every exit path. *)
Definition scope (e : Environment.t) (indeterminate : expr) (calls : list Call)
    (m : Memory) : result unit * Memory :=
  let '(r, s) := for_each call calls {| this := new e indeterminate; memory := m |} in
  (r, destroy s).

End Methods.

End FunctionBuilder.

(** ** The error taxonomy of the specification

    The sources throw one class, [Problem]; the kinds of the specification
    are told apart by the message. *)

Definition CallError (name argString : string) : Problem :=
  mkProblem ("Function call of (" +:+ name +:+ " " +:+ argString +:+ ") failed!").

Definition ParseError (path : string) : Problem :=
  mkProblem ("Unable to parse file: " +:+ path).

Definition LoadError (path : string) : Problem :=
  mkProblem ("Unable to load file: " +:+ path).

Definition UnregisteredTypeError : Problem :=
  mkProblem ExternalAddressCache.unregistered.

Definition TypeMismatchError (H : Host) (T : HostType) : Problem :=
  mkProblem ("Attempted to cast external address to " +:+ typeid_name H T
               +:+ " when it is not tagged as such!").

Definition BuilderMisuseError (p : Problem) : Prop :=
  p = mkProblem FunctionBuilder.misuse_install
  \/ p = mkProblem FunctionBuilder.misuse_invoke.

Definition UnknownFunctionError (name : string) : Problem :=
  mkProblem ("Function " +:+ name +:+ " does not exist!!!!").

Definition InvocationError (renderedCall : string) : Problem :=
  mkProblem ("ERROR: invocation of " +:+ renderedCall +:+ " yielded an error!").

(** ** Argument chains

    [chain h p l]: from [p], the nodes at the addresses [l] follow one
    another along [nextArg], none has an [argList], and the last one ends the
    list. *)
Fixpoint chain (h : gmap N expr) (p : ptr) (l : list N) : Prop :=
  match l with
  | [] => p = NULL
  | a :: l' =>
      p = a /\ a <> NULL
      /\ exists e, h !! a = Some e /\ argList e = NULL /\ chain h (nextArg e) l'
  end.

(** The tag and the payload of the node at an address. *)
Definition payload (h : gmap N expr) (a : N) : option (Z * N) :=
  (fun e => (type e, value e)) <$> h !! a.

(** The nodes of a builder's argument chain, and the argument vector they
    carry, read off the expression memory. *)
Definition nodes (s : FunctionBuilder.Machine) : list N :=
  reachable (FunctionBuilder.memory s)
    (argList (FunctionBuilder._ref (FunctionBuilder.this s))).

Fixpoint payloads (h : gmap N expr) (l : list N) : list (Z * N) :=
  match l with
  | [] => []
  | a :: l' =>
      match payload h a with
      | Some c => c :: payloads h l'
      | None => payloads h l'
      end
  end.

Definition arguments (s : FunctionBuilder.Machine) : list (Z * N) :=
  payloads (heap (FunctionBuilder.memory s)) (nodes s).

(** A builder in the [FunctionSet] state whose argument chain is [l]. *)
Record bound (s : FunctionBuilder.Machine) (l : list N) : Prop := mkBound {
  bound_set : FunctionBuilder.functionReferenceSet (FunctionBuilder.this s) = true;
  bound_chain :
    chain (heap (FunctionBuilder.memory s))
      (argList (FunctionBuilder._ref (FunctionBuilder.this s))) l;
  bound_next : nextArg (FunctionBuilder._ref (FunctionBuilder.this s)) = NULL;
  bound_curr : l <> [] -> list.last l = Some (FunctionBuilder.curr (FunctionBuilder.this s));
  bound_below : Forall (fun a => (a < next (FunctionBuilder.memory s))%N) l;
  bound_nodup : NoDup l;
  bound_pos : (0 < next (FunctionBuilder.memory s))%N
}.

(** The nodes a log installs, deinstalls and gives back, in order. *)
Fixpoint installed (events : list Event) : list N :=
  match events with
  | [] => []
  | Installed a :: rest => a :: installed rest
  | _ :: rest => installed rest
  end.

Fixpoint deinstalled (events : list Event) : list N :=
  match events with
  | [] => []
  | Deinstalled a :: rest => a :: deinstalled rest
  | _ :: rest => deinstalled rest
  end.

Fixpoint returned (events : list Event) : list N :=
  match events with
  | [] => []
  | Returned a :: rest => a :: returned rest
  | _ :: rest => returned rest
  end.

(** ** What [addArgument] converts its argument to *)

(** The elements of an argument, sequences flattened recursively. *)
Fixpoint flatten (a : Arg) : list Arg :=
  match a with
  | ASequence _ elements =>
      (fix each (l : list Arg) : list Arg :=
         match l with
         | [] => []
         | element :: l' => flatten element ++ each l'
         end) elements
  | _ => [a]
  end.

(** The arguments that are not sequences. *)
Definition scalar (a : Arg) : Prop :=
  match a with ASequence _ _ => False | _ => True end.

(** The elements of several arguments, flattened, in order. *)
Definition flatten_all (args : list Arg) : list Arg :=
  foldr (fun a rest => flatten a ++ rest) [] args.

Section Conversion.
Context (E : Engine) (H : Host) (_cache : ExternalAddressCache.t)
  (e : Environment.t).

(** The constant a scalar argument becomes, or the error of the conversion. *)
Definition constant (a : Arg) : result (Z * N) :=
  let raw := Environment.getRawEnvironment e in
  match a with
  | ABool v => Normal (SYMBOL, if v then EnvTrueSymbol E raw else EnvFalseSymbol E raw)
  | AInt32 v | AInt64 v => Normal (INTEGER, EnvAddLong E raw v)
  | AFloat v => Normal (FLOAT, EnvAddDouble E raw (float_to_double H v))
  | ADouble v => Normal (FLOAT, EnvAddDouble E raw v)
  | ACharPtr s | AString s => Normal (STRING, EnvAddSymbol E raw s)
  | APointer T v =>
      match _cache T !! raw with
      | Some id => Normal (EXTERNAL_ADDRESS, EnvAddExternalAddress E raw v id)
      | None => Throw UnregisteredTypeError
      end
  | ASequence _ _ => Throw UnregisteredTypeError
  end.

(** The constants of the scalars up to the first conversion that fails, and
    that failure. *)
Fixpoint constants (scalars : list Arg) : list (Z * N) * option Problem :=
  match scalars with
  | [] => ([], None)
  | a :: rest =>
      match constant a with
      | Normal c => let '(cs, failure) := constants rest in (c :: cs, failure)
      | Throw p => ([], Some p)
      end
  end.

End Conversion.

(** The outcome of a run of conversions. *)
Definition outcome (failure : option Problem) : result unit :=
  match failure with
  | None => Normal tt
  | Some p => Throw p
  end.

(** The calls of the build-evaluate cycle that follow
    [setFunctionReference]. *)
Definition keeps_reference (c : FunctionBuilder.Call) : Prop :=
  match c with
  | FunctionBuilder.SetFunctionReference _ => False
  | _ => True
  end.

(** ** The rendering the specification asks of [invoke]

    The text of one argument node in the words of the specification:
    strings quoted, symbols bare, instance names in square brackets, numbers
    in their literal (decimal) form, and every address-like tag as a label
    followed by the pointer in hexadecimal. *)
Definition spec_rendering (E : Engine) (H : Host) (e : expr) : string :=
  match to_DataObjectType (type e) with
  | String_ => dquote +:+ DOPToString E (value e) +:+ dquote
  | Symbol => DOPToString E (value e)
  | InstanceName => "[" +:+ DOPToString E (value e) +:+ "]"
  | Integer => show_dec (DOPToInteger E (value e))
  | Float => show_double H (DOPToDouble E (value e))
  | InstanceAddress => "InstanceAddress<0x" +:+ show_pointer H (value e) +:+ ">"
  | ExternalAddress => "ExternalAddress<0x" +:+ show_pointer H (value e) +:+ ">"
  | Multifield => "MULTIFIELD<0x" +:+ show_pointer H (value e) +:+ ">"
  | _ => "UNKNOWN_TYPE<0x" +:+ show_pointer H (value e) +:+ ">"
  end.


(** ** A small engine and host to run the definitions on

    The engine knows the functions [echo] (which evaluates) and [fail]
    (whose evaluation reports an error), calls [+] successfully, cannot parse
    [rules.clp] and cannot read [missing.clp]. *)

Definition sample_true : ptr := 101%N.
Definition sample_false : ptr := 100%N.

Definition sample_engine : Engine :=
  {| EnvFunctionCall := fun _ name _ =>
       if String.eqb name "+" then (0, mkDataObject INTEGER 2005 0 0)
       else (1, mkDataObject RVOID NULL 0 0);
     EnvLoad := fun _ path =>
       if String.eqb path "rules.clp" then -1
       else if String.eqb path "missing.clp" then 0 else 1;
     EnvTrueSymbol := fun _ => sample_true;
     EnvFalseSymbol := fun _ => sample_false;
     EnvAddSymbol := fun _ s => (1000 + N.of_nat (String.length s))%N;
     EnvAddLong := fun _ z => (2000 + Z.to_N z)%N;
     EnvAddDouble := fun _ d => match d with Float64 b => (3000 + Z.to_N b)%N end;
     EnvAddExternalAddress := fun _ p id => (4000 + p)%N;
     GetFunctionReference := fun _ name =>
       if String.eqb name "echo" then Some (30, 7%N)
       else if String.eqb name "fail" then Some (30, 8%N) else None;
     EvaluateExpression := fun _ reference _ =>
       if (value reference =? 8)%N then (1, mkDataObject RVOID NULL 0 0)
       else (0, mkDataObject SYMBOL sample_true 0 0);
     DOPToString := fun _ => "abc";
     DOPToInteger := fun p => Z.of_N p - 2000;
     DOPToDouble := fun p => Float64 (Z.of_N p - 3000);
     externalAddressHashNode_type := fun p => Z.of_N p mod 10;
     DOPToExternalAddress := fun p => (p - 4000)%N |}.

Definition sample_host : Host :=
  {| show_pointer := fun p => show_hex (Z.of_N p);
     show_double := fun d => match d with Float64 b => show_dec b +:+ ".0" end;
     typeid_name := fun T => "T" +:+ show_dec (Z.pos T);
     float_to_double := fun f => match f with Float32 b => Float64 b end |}.

(** An owning handle, a borrowed view of the same engine instance, and a
    handle of another instance. *)
Definition sample_env : Environment.t := Environment.mk true 7%N.
Definition sample_view : Environment.t := Environment.borrow 7%N.
Definition sample_other : Environment.t := Environment.mk true 9%N.

(** An expression memory in which nothing has been allocated yet, a freshly
    constructed builder whose [_ref] happens to be all zeroes, and the
    builder after [setFunctionReference("echo")]. *)
Definition sample_memory : Memory := {| heap := ∅; next := 1%N; log := [] |}.

Definition sample_unbound : FunctionBuilder.Machine :=
  {| FunctionBuilder.this := FunctionBuilder.new sample_env (mkExpr 0 0 0 0);
     FunctionBuilder.memory := sample_memory |}.

Definition sample_bound : FunctionBuilder.Machine :=
  (FunctionBuilder.setFunctionReference sample_engine "echo" sample_unbound).2.

(** An expression memory that holds one installed node, at address 5, and a
    stale [FUNCTION_REFERENCE] whose [argList] is that address. *)
Definition sample_live : Memory :=
  {| heap := {[ 5%N := mkExpr INTEGER 2042 0 0 ]};
     next := 6%N;
     log := [Installed 5] |}.

Definition sample_stale : expr := mkExpr 0 0 5 0.

(** The key a registration of a history is stored under. *)
Definition key_of (r : positive * Environment.t * Z) : positive * N :=
  (r.1.1, Environment.getRawEnvironment r.1.2).

(** The cast as the specification words it: it returns the embedded pointer
    when the tag equals the id registered for [T], and throws the
    [TypeMismatchError] in every other case. *)
Definition cast_fails_only_with_mismatch (E : Engine) (H : Host) (T : HostType)
    (this : Environment.t) (c : ExternalAddressCache.t) (d : DATA_OBJECT) : Prop :=
  (exists i,
      c T !! Environment.getRawEnvironment this = Some i
      /\ externalAddressHashNode_type E (do_value d) = i
      /\ fromExternalAddress E H T this c d
         = Normal (DOPToExternalAddress E (do_value d)))
  \/ fromExternalAddress E H T this c d = Throw (TypeMismatchError H T).

(** ** The rest of the engine handle

    The engine primitives and accessor macros the remaining functions of
    [Environment.cc] go through. *)

Record Primitives : Type := mkPrimitives {
  (** [DestroyEnvironment(env)]. *)
  DestroyEnvironment : ptr -> Z;
  (** [EnvMakeInstance(env, instanceString)]. *)
  EnvMakeInstance : ptr -> string -> ptr;
  (** [InstallExternalAddressType(env, description)]. *)
  InstallExternalAddressType : ptr -> ptr -> Z;
  (** [GetDOBegin(obj)], [GetDOEnd(obj)]. *)
  GetDOBegin : DATA_OBJECT -> Z;
  GetDOEnd : DATA_OBJECT -> Z;
  (** [EnvGetMFValue(env, multifield, i)] and [ValueToString(value)]. *)
  EnvGetMFValue : ptr -> ptr -> Z -> ptr;
  ValueToString : ptr -> string;
  (** [EnvDOPToInteger(env, dobj)], an [int], and [EnvDOPToLong(env, dobj)],
      a [long long]. *)
  EnvDOPToInteger : ptr -> DATA_OBJECT -> Z;
  EnvDOPToLong : ptr -> DATA_OBJECT -> Z
}.



(** [Environment::makeInstance(instanceString)]. *)
Definition makeInstance (P : Primitives) (this : Environment.t)
    (instanceString : string) : result ptr :=
  let res := EnvMakeInstance P (Environment.env this) instanceString in
  if (res =? NULL)%N then
    Throw (mkProblem ("Couldn't construct an instance from '" +:+ instanceString
                        +:+ "'!"))
  else Normal res.

(** [Environment::installExternalAddressType(description)] and
    [Environment::registerExternalAddressType<T>(description)]. *)
Definition installExternalAddressType (P : Primitives) (this : Environment.t)
    (description : ptr) : Z :=
  InstallExternalAddressType P (Environment.env this) description.

Definition registerExternalAddressType (P : Primitives) (T : HostType)
    (this : Environment.t) (description : ptr) (_cache : ExternalAddressCache.t)
  : ExternalAddressCache.t :=
  ExternalAddressCache.registerExternalAddressId T this
    (installExternalAddressType P this description) _cache.

(** A history of registrations applied to a registry, oldest first. *)
Definition registrations (history : list (positive * Environment.t * Z))
    (_cache : ExternalAddressCache.t) : ExternalAddressCache.t :=
  fold_left (fun c r => ExternalAddressCache.registerExternalAddressId r.1.1 r.1.2 r.2 c)
    history _cache.

(** The id of the oldest registration of a key in a history. *)
Fixpoint first_registration (T : HostType) (env : ptr)
    (history : list (positive * Environment.t * Z)) : option Z :=
  match history with
  | [] => None
  | r :: rest =>
      if decide (key_of r = (T, env)) then Some r.2
      else first_registration T env rest
  end.

(** ** Value extraction, the numeric and the container overloads *)






Section Containers.
Context (P : Primitives).

(** The string of field [i] of the multifield of [dobj]. *)
Definition field_string (env : ptr) (dobj : DATA_OBJECT) (i : Z) : string :=
  ValueToString P (EnvGetMFValue P env (do_value dobj) i).

(** [for (int i = begin; i <= end; ++i) container.emplace_back(...)], by
    the number of iterations left; the increment of an [int] that holds
    [INT_MAX] is outside the model. *)
Fixpoint emplace_fields (env : ptr) (dobj : DATA_OBJECT) (iterations : nat)
    (i : Z) (container : list string) : list string :=
  match iterations with
  | O => container
  | S iterations' =>
      emplace_fields env dobj iterations' (i + 1)
        (container ++ [field_string env dobj i])
  end.

(** [populateStringContainer(env, dobj, container)] on a [std::list] or a
    [std::vector]. *)
Definition populateStringContainer (env : ptr) (dobj : DATA_OBJECT)
    (container : list string) : list string :=
  let end_ := GetDOEnd P dobj in
  let begin_ := GetDOBegin P dobj in
  emplace_fields env dobj (Z.to_nat (end_ - begin_ + 1)) begin_ container.



(** [extractData] into [std::list<std::string>] / [std::vector<std::string>]
    and into [std::stringstream]. *)
Definition extractData_strings (env : Environment.t) (dobj : DATA_OBJECT)
    (list_ : list string) : list string :=
  populateStringContainer (Environment.getRawEnvironment env) dobj list_.


End Containers.


(** ** [Environment::buildAndExecuteFunction]

    [FunctionBuilder fb(this); fb.setFunctionReference(function);
    fb.addArgument(args...); fb.invoke(ret);] with the destructor of [fb] on
    every way out.  Next to the outcome, the contents of [*ret] and the
    expression memory afterwards. *)
Definition buildAndExecuteFunction (E : Engine) (H : Host)
    (_cache : ExternalAddressCache.t) (this : Environment.t)
    (indeterminate : expr) (function : string) (ret_ : DATA_OBJECT)
    (args : list Arg) (m : Memory) : result unit * DATA_OBJECT * Memory :=
  let fb := {| FunctionBuilder.this := FunctionBuilder.new this indeterminate;
               FunctionBuilder.memory := m |} in
  match FunctionBuilder.setFunctionReference E function fb with
  | (Throw p, s1) => (Throw p, ret_, FunctionBuilder.destroy s1)
  | (Normal _, s1) =>
      match FunctionBuilder.for_each (FunctionBuilder.addArgument E H _cache) args s1 with
      | (Throw p, s2) => (Throw p, ret_, FunctionBuilder.destroy s2)
      | (Normal _, s2) =>
          let '(r, written, s3) := FunctionBuilder.invoke E H ret_ s2 in
          (r, written, FunctionBuilder.destroy s3)
      end
  end.


(** A bound builder [s] with chain [l] has become [s'] with chain
    [l ++ new]: the new nodes are fresh allocations, installed and neither
    deinstalled nor given back; the expression memory is otherwise
    untouched outside the chain, and the builder still refers to the same
    callable of the same engine. *)
Definition grows (s s' : FunctionBuilder.Machine) (l new : list N) : Prop :=
  bound s' (l ++ new)
  /\ Forall (fun a => (next (FunctionBuilder.memory s) <= a)%N) new
  /\ (next (FunctionBuilder.memory s) <= next (FunctionBuilder.memory s'))%N
  /\ (forall a, a ∉ l -> a ∉ new ->
        heap (FunctionBuilder.memory s') !! a = heap (FunctionBuilder.memory s) !! a)
  /\ (exists events,
        log (FunctionBuilder.memory s') = log (FunctionBuilder.memory s) ++ events
        /\ installed events = new /\ deinstalled events = [] /\ returned events = [])
  /\ type (FunctionBuilder._ref (FunctionBuilder.this s'))
     = type (FunctionBuilder._ref (FunctionBuilder.this s))
  /\ value (FunctionBuilder._ref (FunctionBuilder.this s'))
     = value (FunctionBuilder._ref (FunctionBuilder.this s))
  /\ FunctionBuilder._function (FunctionBuilder.this s')
     = FunctionBuilder._function (FunctionBuilder.this s)
  /\ FunctionBuilder.env (FunctionBuilder.this s')
     = FunctionBuilder.env (FunctionBuilder.this s).

(** ** The reconstructed call in closed form *)





(** ** More samples: further primitives, and an engine whose external
    address nodes keep the type id and the pointer they were made from. *)

Definition sample_primitives : Primitives :=
  {| DestroyEnvironment := fun p => if (p =? 7)%N then 1 else 0;
     EnvMakeInstance := fun _ s => if String.eqb s "(a of A)" then 77%N else NULL;
     InstallExternalAddressType := fun _ description => Z.of_N description + 3;
     GetDOBegin := fun d => do_begin d + 1;
     GetDOEnd := fun d => do_end d + 1;
     EnvGetMFValue := fun _ multifield i => (multifield + Z.to_N i)%N;
     ValueToString := fun v => "s" +:+ show_dec (Z.of_N v);
     EnvDOPToInteger := fun _ d => Z.of_N (do_value d) - 10;
     EnvDOPToLong := fun _ d => Z.of_N (do_value d) - 10 |}.

Definition sample_address_engine : Engine :=
  {| EnvFunctionCall := EnvFunctionCall sample_engine;
     EnvLoad := EnvLoad sample_engine;
     EnvTrueSymbol := EnvTrueSymbol sample_engine;
     EnvFalseSymbol := EnvFalseSymbol sample_engine;
     EnvAddSymbol := EnvAddSymbol sample_engine;
     EnvAddLong := EnvAddLong sample_engine;
     EnvAddDouble := EnvAddDouble sample_engine;
     EnvAddExternalAddress := fun _ p id => (p * 65536 + Z.to_N id)%N;
     GetFunctionReference := GetFunctionReference sample_engine;
     EvaluateExpression := EvaluateExpression sample_engine;
     DOPToString := DOPToString sample_engine;
     DOPToInteger := DOPToInteger sample_engine;
     DOPToDouble := DOPToDouble sample_engine;
     externalAddressHashNode_type := fun node => Z.of_N (node mod 65536);
     DOPToExternalAddress := fun node => (node / 65536)%N |}.

(** A multifield value over the fields 51, 52 and 53 of the sample
    primitives, an engine integer that is negative, and the sample builder
    bound to [fail] with two arguments. *)
Definition sample_multifield : DATA_OBJECT := mkDataObject MULTIFIELD 50 0 2.



(** * Properties *)

(** ** Strings *)

Lemma append_assoc (a b c : string) : (a +:+ b) +:+ c = a +:+ (b +:+ c).
Proof.
  induction a as [|x a IH]; [reflexivity | exact (f_equal (String x) IH)].
Qed.

Lemma append_nil_r (a : string) : a +:+ EmptyString = a.
Proof.
  induction a as [|x a IH]; [reflexivity | exact (f_equal (String x) IH)].
Qed.

Lemma contains_middle (pre s post : string) : contains (pre +:+ s +:+ post) s.
Proof. now exists pre, post. Qed.

Lemma contains_append_l (a b s : string) : contains a s -> contains (a +:+ b) s.
Proof.
  intros (pre & post & ->). exists pre, (post +:+ b).
  now rewrite !append_assoc.
Qed.

Lemma contains_append_r (a b s : string) : contains b s -> contains (a +:+ b) s.
Proof.
  intros (pre & post & ->). exists (a +:+ pre), post.
  now rewrite !append_assoc.
Qed.

(** ** Value extraction *)

(** C7. Extraction into [bool] yields [true] exactly when the tag is the
    symbol tag and the value is not the engine's false symbol; for every
    other tag the extracted boolean is [false], whatever the value. *)
Theorem extractData_bool_symbol_convention
    (E : Engine) (env : Environment.t) (d : DATA_OBJECT) :
  (extractData_bool E env d = true
   <-> do_type d = SYMBOL
       /\ do_value d <> EnvFalseSymbol E (Environment.getRawEnvironment env))
  /\ (do_type d <> SYMBOL -> extractData_bool E env d = false).
Proof.
  unfold extractData_bool. split.
  - rewrite andb_true_iff, negb_true_iff, N.eqb_neq, Z.eqb_eq. tauto.
  - intros Hne. apply andb_false_iff. right. now apply Z.eqb_neq.
Qed.

(** ** The engine handle *)

(** C8. [funcall] returns normally, with the object the engine wrote, exactly
    when the raw call reports status zero; on every other status it throws
    the [CallError], whose message contains the function name and the
    argument string.  The other overloads go through this one: none of them
    looks at the status. *)
Theorem funcall_interprets_status
    (E : Engine) (this : Environment.t) (name args : string) :
  let status := (EnvFunctionCall E (Environment.env this) name args).1 in
  let obj := (EnvFunctionCall E (Environment.env this) name args).2 in
  Environment.funcall E this name args
    = (if status =? 0 then Normal tt else Throw (CallError name args), obj)
  /\ ((Environment.funcall E this name args).1 = Normal tt <-> status = 0)
  /\ contains (message (CallError name args)) name
  /\ contains (message (CallError name args)) args
  /\ Environment.funcall_discard E this name args
     = (Environment.funcall E this name args).1
  /\ Environment.funcall_name E this name
     = (Environment.funcall E this name EmptyString).1
  /\ Environment.funcall_ret E this name
     = Environment.funcall E this name EmptyString
  /\ funcall_bool E this name args
     = match (Environment.funcall E this name args).1 with
       | Normal _ =>
           Normal (extractData_bool E this (Environment.funcall E this name args).2)
       | Throw p => Throw p
       end.
Proof.
  cbv zeta. unfold funcall_bool, Environment.funcall_discard,
    Environment.funcall_name, Environment.funcall_ret, Environment.funcall.
  destruct (EnvFunctionCall E (Environment.env this) name args) as [status obj].
  simpl. destruct (Z.eqb_spec status 0) as [->|Hne]; simpl.
  - repeat split; try reflexivity; try (intros _; reflexivity).
    + unfold CallError; simpl.
      apply (contains_middle "Function call of (" name (" " +:+ args +:+ ") failed!")).
    + unfold CallError; simpl.
      apply (contains_append_r "Function call of (").
      apply contains_append_r.
      apply (contains_middle " " args ") failed!").
  - repeat split; try reflexivity; try discriminate; try (intros; contradiction).
    + unfold CallError; simpl.
      apply (contains_middle "Function call of (" name (" " +:+ args +:+ ") failed!")).
    + unfold CallError; simpl.
      apply (contains_append_r "Function call of (").
      apply contains_append_r.
      apply (contains_middle " " args ") failed!").
Qed.

(** C9. [loadFile] dispatches on the three-way result of the engine's load:
    -1 (parse failure) throws the [ParseError] carrying the path, 0 (the file
    could not be read) throws the [LoadError] carrying the path, and every
    other result returns silently. *)
Theorem loadFile_tristate (E : Engine) (this : Environment.t) (path : string) :
  let loaded := EnvLoad E (Environment.env this) path in
  (loaded = -1 -> Environment.loadFile E this path = Throw (ParseError path))
  /\ (loaded = 0 -> Environment.loadFile E this path = Throw (LoadError path))
  /\ (loaded <> -1 -> loaded <> 0 -> Environment.loadFile E this path = Normal tt)
  /\ contains (message (ParseError path)) path
  /\ contains (message (LoadError path)) path.
Proof.
  cbv zeta. unfold Environment.loadFile.
  repeat split.
  - now intros ->.
  - now intros ->.
  - intros Hp Hl.
    destruct (EnvLoad E (Environment.env this) path) as [|p|p]; try easy.
    destruct p; try easy.
  - exists "Unable to parse file: ", EmptyString. simpl.
    now rewrite append_nil_r.
  - exists "Unable to load file: ", EmptyString. simpl.
    now rewrite append_nil_r.
Qed.

(** ** The external-address registry *)

Lemma register_raw_lookup (T : HostType) (env : ptr) (i : Z)
    (c : ExternalAddressCache.t) :
  ExternalAddressCache.registerExternalAddressId_raw T env i c T !! env
  = Some (default i (c T !! env)).
Proof.
  unfold ExternalAddressCache.registerExternalAddressId_raw.
  destruct (c T !! env) as [j|] eqn:Hc; simpl.
  - exact Hc.
  - rewrite fn_lookup_insert. apply lookup_insert_eq.
Qed.

Lemma register_raw_lookup_other (T T' : HostType) (env env' : ptr) (i : Z)
    (c : ExternalAddressCache.t) :
  (T, env) <> (T', env') ->
  ExternalAddressCache.registerExternalAddressId_raw T env i c T' !! env'
  = c T' !! env'.
Proof.
  intros Hne. unfold ExternalAddressCache.registerExternalAddressId_raw.
  destruct (c T !! env) as [j|] eqn:Hc; [reflexivity|].
  destruct (decide (T = T')) as [<-|HT].
  - rewrite fn_lookup_insert. apply lookup_insert_ne. congruence.
  - now rewrite fn_lookup_insert_ne.
Qed.

(** A registration of a pair that is registered already changes nothing. *)
Lemma register_raw_twice (T : HostType) (env : ptr) (i1 i2 : Z)
    (c : ExternalAddressCache.t) :
  ExternalAddressCache.registerExternalAddressId_raw T env i2
    (ExternalAddressCache.registerExternalAddressId_raw T env i1 c)
  = ExternalAddressCache.registerExternalAddressId_raw T env i1 c.
Proof.
  unfold ExternalAddressCache.registerExternalAddressId_raw at 1.
  now rewrite register_raw_lookup.
Qed.

Lemma after_unregistered (history : list (positive * Environment.t * Z))
    (T : HostType) (env : ptr) :
  Forall (fun r => key_of r <> (T, env)) history ->
  ExternalAddressCache.after history T !! env = None.
Proof.
  unfold ExternalAddressCache.after.
  assert (Hgen : forall c : ExternalAddressCache.t,
             c T !! env = None ->
             Forall (fun r => key_of r <> (T, env)) history ->
             fold_left (fun c r =>
                          ExternalAddressCache.registerExternalAddressId
                            r.1.1 r.1.2 r.2 c) history c T !! env = None).
  { induction history as [|r history IH]; intros c Hc Hall; simpl.
    - exact Hc.
    - inversion Hall as [|? ? Hr Hrest]; subst. apply IH; [|exact Hrest].
      unfold ExternalAddressCache.registerExternalAddressId.
      rewrite register_raw_lookup_other; [exact Hc | exact Hr]. }
  intros Hall. apply Hgen; [apply lookup_empty | exact Hall].
Qed.

(** C5, as the code has it.  Looking up the id of [T] before any registration
    of [T] for the engine instance throws the [UnregisteredTypeError].  The
    cast, when [T] is registered with id [i] for the instance, returns the
    embedded pointer exactly when the embedded type tag equals [i] and throws
    the [TypeMismatchError] otherwise; when [T] is not registered it throws
    the [UnregisteredTypeError] of the lookup. *)
Theorem fromExternalAddress_checked
    (E : Engine) (H : Host) (T : HostType) (this : Environment.t)
    (d : DATA_OBJECT) :
  (forall history,
      Forall (fun r => key_of r <> (T, Environment.getRawEnvironment this)) history ->
      getExternalAddressId T this (ExternalAddressCache.after history)
      = Throw UnregisteredTypeError)
  /\ (forall c : ExternalAddressCache.t,
         fromExternalAddress E H T this c d
         = match c T !! Environment.getRawEnvironment this with
           | Some i =>
               if externalAddressHashNode_type E (do_value d) =? i
               then Normal (DOPToExternalAddress E (do_value d))
               else Throw (TypeMismatchError H T)
           | None => Throw UnregisteredTypeError
           end).
Proof.
  split.
  - intros history Hall.
    unfold getExternalAddressId, ExternalAddressCache.getExternalAddressId,
      ExternalAddressCache.getExternalAddressId_raw.
    now rewrite (after_unregistered _ _ _ Hall).
  - intros c.
    unfold fromExternalAddress, externalAddressIsOfType, getExternalAddressId,
      ExternalAddressCache.getExternalAddressId,
      ExternalAddressCache.getExternalAddressId_raw.
    destruct (c T !! Environment.getRawEnvironment this) as [i|]; [|reflexivity].
    now destruct (externalAddressHashNode_type E (do_value d) =? i).
Qed.

(** C6, as the code has it.  Of two ids registered one after the other for
    the same engine instance and host type, the second registration changes
    nothing; when the pair was not registered before, the lookup returns the
    first id (first write wins). *)
Theorem register_twice_first_wins
    (T : HostType) (env : Environment.t) (i1 i2 : Z) (c : ExternalAddressCache.t) :
  c T !! Environment.getRawEnvironment env = None ->
  ExternalAddressCache.registerExternalAddressId T env i2
    (ExternalAddressCache.registerExternalAddressId T env i1 c)
  = ExternalAddressCache.registerExternalAddressId T env i1 c
  /\ ExternalAddressCache.getExternalAddressId T env
       (ExternalAddressCache.registerExternalAddressId T env i2
          (ExternalAddressCache.registerExternalAddressId T env i1 c))
     = Normal i1.
Proof.
  intros Hc. unfold ExternalAddressCache.registerExternalAddressId.
  rewrite register_raw_twice. split; [reflexivity|].
  unfold ExternalAddressCache.getExternalAddressId,
    ExternalAddressCache.getExternalAddressId_raw.
  now rewrite register_raw_lookup, Hc.
Qed.

(** C10. The registry is keyed by the raw engine pointer.  After a
    registration of [T] through one [Environment], the lookup succeeds with
    one and the same id through every [Environment] over the same raw
    pointer (the id just registered, when the pair was free), and it fails
    through an [Environment] over another raw pointer that has no
    registration of [T]. *)
Theorem registry_keyed_by_raw_pointer
    (T : HostType) (e1 e2 e3 : Environment.t) (i : Z) (c : ExternalAddressCache.t) :
  Environment.getRawEnvironment e2 = Environment.getRawEnvironment e1 ->
  Environment.getRawEnvironment e3 <> Environment.getRawEnvironment e1 ->
  c T !! Environment.getRawEnvironment e3 = None ->
  let c' := ExternalAddressCache.registerExternalAddressId T e1 i c in
  (exists j,
      ExternalAddressCache.getExternalAddressId T e1 c' = Normal j
      /\ ExternalAddressCache.getExternalAddressId T e2 c' = Normal j
      /\ (c T !! Environment.getRawEnvironment e1 = None -> j = i))
  /\ ExternalAddressCache.getExternalAddressId T e3 c'
     = Throw UnregisteredTypeError.
Proof.
  intros Hsame Hother Hfree c'. subst c'.
  unfold ExternalAddressCache.getExternalAddressId,
    ExternalAddressCache.registerExternalAddressId,
    ExternalAddressCache.getExternalAddressId_raw.
  rewrite Hsame. split.
  - exists (default i (c T !! Environment.getRawEnvironment e1)).
    rewrite register_raw_lookup. repeat split.
    now intros ->.
  - rewrite register_raw_lookup_other by congruence.
    now rewrite Hfree.
Qed.

(** ** The registry and the casts on the sample engine *)

(** C5: the cast of a value to a host type that was never registered
    neither returns the pointer nor throws the [TypeMismatchError]. *)
Lemma fromExternalAddress_unregistered_counterexample :
  ~ cast_fails_only_with_mismatch sample_engine sample_host 1%positive
      sample_env ExternalAddressCache.empty (mkDataObject EXTERNAL_ADDRESS 4042 0 0)
  /\ fromExternalAddress sample_engine sample_host 1%positive sample_env
       ExternalAddressCache.empty (mkDataObject EXTERNAL_ADDRESS 4042 0 0)
     = Throw UnregisteredTypeError.
Proof.
  split; [|reflexivity].
  intros [(i & Hi & _)|Hthrow].
  - discriminate Hi.
  - vm_compute in Hthrow. discriminate Hthrow.
Qed.

(** C6: after registering 1 and then 2 for the same pair, the lookup
    returns 1, not 2. *)
Lemma register_twice_counterexample :
  ExternalAddressCache.getExternalAddressId 1%positive sample_env
    (ExternalAddressCache.registerExternalAddressId 1%positive sample_env 2
       (ExternalAddressCache.registerExternalAddressId 1%positive sample_env 1
          ExternalAddressCache.empty))
  = Normal 1
  /\ ExternalAddressCache.getExternalAddressId 1%positive sample_env
       (ExternalAddressCache.registerExternalAddressId 1%positive sample_env 2
          (ExternalAddressCache.registerExternalAddressId 1%positive sample_env 1
             ExternalAddressCache.empty))
     <> Normal 2.
Proof. split; [reflexivity | vm_compute; discriminate]. Qed.

Lemma register_twice_first_wins_witness :
  ExternalAddressCache.getExternalAddressId 1%positive sample_env
    (ExternalAddressCache.registerExternalAddressId 1%positive sample_env 2
       (ExternalAddressCache.registerExternalAddressId 1%positive sample_env 1
          ExternalAddressCache.empty))
  = Normal 1.
Proof.
  apply (register_twice_first_wins 1%positive sample_env 1 2
           ExternalAddressCache.empty).
  reflexivity.
Defined.

Lemma registry_keyed_by_raw_pointer_witness :
  ExternalAddressCache.getExternalAddressId 1%positive sample_other
    (ExternalAddressCache.registerExternalAddressId 1%positive sample_env 3
       ExternalAddressCache.empty)
  = Throw UnregisteredTypeError.
Proof.
  apply (registry_keyed_by_raw_pointer 1%positive sample_env sample_view
           sample_other 3 ExternalAddressCache.empty).
  - reflexivity.
  - vm_compute. discriminate.
  - reflexivity.
Defined.

(** ** Argument chains in the expression memory *)

Lemma reach_null (fuel : nat) (h : gmap N expr) : reach fuel h 0%N = [].
Proof. destruct fuel; reflexivity. Qed.

Lemma reach_chain (h : gmap N expr) (l : list N) :
  forall (p : N) (fuel : nat),
    chain h p l -> (length l < fuel)%nat -> reach fuel h p = l.
Proof.
  induction l as [|a l IH]; intros p fuel Hc Hlen; simpl in Hc.
  - subst p. apply reach_null.
  - destruct Hc as (-> & Hnz & e & He & Harg & Hrest).
    destruct fuel as [|fuel]; [simpl in Hlen; lia|].
    simpl. rewrite (proj2 (N.eqb_neq a 0) Hnz), He, Harg, reach_null.
    simpl. f_equal. apply IH; [exact Hrest | simpl in Hlen; lia].
Qed.

Lemma chain_lookup (h : gmap N expr) (l : list N) :
  forall p a, chain h p l -> a ∈ l -> is_Some (h !! a).
Proof.
  induction l as [|b l IH]; intros p a Hc Ha; simpl in Hc.
  - inversion Ha.
  - destruct Hc as (-> & _ & e & He & _ & Hrest).
    apply elem_of_cons in Ha as [->|Ha]; [eauto | eauto].
Qed.

Lemma chain_length (h : gmap N expr) (p : N) (l : list N) :
  chain h p l -> NoDup l -> (length l <= size h)%nat.
Proof.
  intros Hc Hnd.
  rewrite <- (size_list_to_set (C := gset N) l Hnd), <- size_dom.
  apply subseteq_size. intros a Ha.
  apply elem_of_list_to_set in Ha. apply elem_of_dom.
  exact (chain_lookup h l p a Hc Ha).
Qed.

Lemma reachable_chain (m : Memory) (p : N) (l : list N) :
  chain (heap m) p l -> NoDup l -> reachable m p = l.
Proof.
  intros Hc Hnd. unfold reachable. apply reach_chain; [exact Hc|].
  pose proof (chain_length _ _ _ Hc Hnd). lia.
Qed.

Lemma chain_null (h : gmap N expr) (l : list N) : chain h 0%N l -> l = [].
Proof.
  destruct l as [|a l]; [reflexivity|]. intros (-> & Hnz & _). now destruct Hnz.
Qed.

Lemma chain_nonnull (h : gmap N expr) (p : N) (l : list N) :
  chain h p l -> p <> 0%N -> l <> [].
Proof. intros Hc Hp ->. now apply Hp. Qed.

Lemma chain_cons (h : gmap N expr) (a : N) (e : expr) (l : list N) :
  a <> 0%N -> h !! a = Some e -> argList e = 0%N -> chain h (nextArg e) l ->
  chain h a (a :: l).
Proof. intros Ha He Harg Hrest. simpl. eauto 8. Qed.

(** A chain only depends on the nodes it goes through. *)
Lemma chain_ext (h h' : gmap N expr) (l : list N) :
  forall p, chain h p l -> (forall a, a ∈ l -> h' !! a = h !! a) -> chain h' p l.
Proof.
  induction l as [|b l IH]; intros p Hc Hsame; simpl in *; [exact Hc|].
  destruct Hc as (-> & Hnz & e & He & Harg & Hrest).
  apply (chain_cons _ _ e); [exact Hnz | | exact Harg |].
  - rewrite Hsame; [exact He | apply elem_of_cons; now left].
  - apply IH; [exact Hrest|]. intros a Ha. apply Hsame. apply elem_of_cons. now right.
Qed.

(** Linking a fresh node behind the last node of a chain extends it. *)
Lemma chain_snoc (h : gmap N expr) (c n : N) (ty : Z) (v : N) (l : list N) :
  forall p,
    chain h p l -> NoDup l -> list.last l = Some c ->
    h !! n = Some (mkExpr ty v 0 0) -> n ∉ l -> n <> 0%N ->
    chain (alter (set_nextArg n) c h) p (l ++ [n]).
Proof.
  induction l as [|a l IH]; intros p Hc Hnd Hlast Hn Hfresh Hnz.
  - discriminate Hlast.
  - simpl in Hc. destruct Hc as (-> & Haz & e & He & Harg & Hrest).
    apply list.NoDup_cons in Hnd as [Hal Hnd].
    apply not_elem_of_cons in Hfresh as [Hna Hfresh].
    destruct l as [|b l].
    + simpl in Hlast. injection Hlast as ->. simpl in Hrest.
      apply (chain_cons _ _ (set_nextArg n e)); [exact Haz | | exact Harg |].
      * rewrite lookup_alter_eq, He. reflexivity.
      * apply (chain_cons _ _ (mkExpr ty v 0 0)); [exact Hnz | | reflexivity | reflexivity].
        change (nextArg (set_nextArg n e)) with n.
        rewrite lookup_alter_ne by congruence. exact Hn.
    + assert (Hac : a <> c).
      { intros ->. apply Hal. rewrite list.last_cons_cons in Hlast.
        apply list.last_Some in Hlast as [l' Hl'].
        rewrite Hl'. apply elem_of_app. right. apply elem_of_cons. now left. }
      rewrite <- app_comm_cons.
      apply (chain_cons _ _ e); [exact Haz | | exact Harg |].
      * rewrite lookup_alter_ne by congruence. exact He.
      * apply IH; assumption.
Qed.

(** ** The builder in the [FunctionSet] state *)

Import FunctionBuilder.

Lemma reachable_fresh (m : Memory) (n : N) (e : expr) :
  n <> 0%N -> heap m !! n = Some e -> argList e = 0%N -> nextArg e = 0%N ->
  reachable m n = [n].
Proof.
  intros Hn He Harg Hnext. unfold reachable. simpl.
  rewrite (proj2 (N.eqb_neq n 0) Hn), He, Harg, Hnext, !reach_null.
  reflexivity.
Qed.

Lemma payload_alter_nextArg (h : gmap N expr) (c n a : N) :
  payload (alter (set_nextArg n) c h) a = payload h a.
Proof.
  unfold payload. destruct (decide (c = a)) as [->|Hne].
  - rewrite lookup_alter_eq. now destruct (h !! a).
  - now rewrite lookup_alter_ne.
Qed.

(** One [installArgument] on a bound builder: a fresh node is installed and
    linked behind the chain; the nodes already there keep their tag and
    payload, and only the former tail is written to (its [nextArg]). *)
Lemma installArgument_bound (s : Machine) (l : list N) (ty : Z) (v : N) :
  bound s l ->
  exists s',
    installArgument ty v s = (Normal tt, s')
    /\ bound s' (l ++ [next (memory s)])
    /\ payload (heap (memory s')) (next (memory s)) = Some (ty, v)
    /\ (forall a, a ∈ l -> payload (heap (memory s')) a = payload (heap (memory s)) a)
    /\ (forall a, a <> next (memory s) -> a <> curr (this s) ->
          heap (memory s') !! a = heap (memory s) !! a)
    /\ log (memory s') = log (memory s) ++ [Installed (next (memory s))]
    /\ env (this s') = env (this s)
    /\ _function (this s') = _function (this s).
Proof.
  intros [Hset Hchain Hnext Hcurr Hbelow Hnd Hpos].
  destruct s as [b m]; simpl in *.
  set (n := next m) in *.
  assert (Hn0 : n <> 0%N) by lia.
  assert (Hnl : n ∉ l).
  { intros Hin. rewrite list.Forall_forall in Hbelow. specialize (Hbelow _ Hin). lia. }
  set (m1 := {| heap := <[n := mkExpr ty v 0 0]> (heap m);
                next := N.succ n; log := log m |}).
  assert (Hreach : reachable m1 n = [n]).
  { apply (reachable_fresh m1 n (mkExpr ty v 0 0)); try reflexivity; [exact Hn0|].
    apply lookup_insert_eq. }
  assert (Hchain1 : chain (heap m1) (argList (_ref b)) l).
  { apply (chain_ext (heap m)); [exact Hchain|].
    intros a Ha. simpl. apply lookup_insert_ne. congruence. }
  unfold installArgument. simpl. rewrite Hset.
  unfold GenConstant, ExpressionInstall. fold n. fold m1. rewrite Hreach.
  destruct (N.eqb_spec (argList (_ref b)) 0) as [Hnull|Hnonnull].
  - rewrite Hnull in Hchain. apply chain_null in Hchain. subst l.
    eexists. split; [reflexivity|]. simpl.
    split; [|split; [|split; [|split; [|split; [|split]]]]]; try reflexivity.
    + constructor;
        cbn [this memory heap next log _ref argList nextArg curr
             functionReferenceSet store_nextArg record].
      * reflexivity.
      * apply (chain_cons _ _ (mkExpr ty v 0 0)); try reflexivity; [exact Hn0|].
        apply lookup_insert_eq.
      * exact Hnext.
      * reflexivity.
      * constructor; [unfold m1; simpl; lia | constructor].
      * apply NoDup_singleton.
      * unfold m1; simpl; lia.
    + unfold payload. now rewrite lookup_insert_eq.
    + intros a Ha. inversion Ha.
    + intros a Ha _. now apply lookup_insert_ne.
  - assert (Hl : l <> []) by (eapply chain_nonnull; eassumption).
    specialize (Hcurr Hl).
    eexists. split; [reflexivity|]. simpl.
    split; [|split; [|split; [|split; [|split; [|split]]]]]; try reflexivity.
    + constructor;
        cbn [this memory heap next log _ref argList nextArg curr
             functionReferenceSet store_nextArg record].
      * reflexivity.
      * apply (chain_snoc _ _ _ ty v); try assumption.
        apply lookup_insert_eq.
      * exact Hnext.
      * intros _. apply list.last_snoc.
      * apply list.Forall_app. split.
        -- eapply list.Forall_impl; [exact Hbelow|]. unfold m1; simpl. intros; lia.
        -- constructor; [unfold m1; simpl; lia | constructor].
      * apply list.NoDup_app. split; [exact Hnd|]. split; [|apply NoDup_singleton].
        intros a Ha Hin. apply list_elem_of_singleton in Hin. congruence.
      * unfold m1; simpl; lia.
    + rewrite payload_alter_nextArg. unfold payload. now rewrite lookup_insert_eq.
    + intros a Ha. rewrite payload_alter_nextArg. unfold payload.
      rewrite lookup_insert_ne; [reflexivity | congruence].
    + intros a Han Hac. rewrite lookup_alter_ne by congruence.
      now apply lookup_insert_ne.
Qed.

(** ** Flattening of sequences *)

(** Induction on arguments, with the elements of a sequence as premises. *)
Lemma Arg_sequence_ind (P : Arg -> Prop) :
  (forall a, scalar a -> P a) ->
  (forall kind elements, Forall P elements -> P (ASequence kind elements)) ->
  forall a, P a.
Proof.
  intros Hscalar Hseq.
  fix IH 1. intros [v|v|v|v|v|s|s|T v|kind elements];
    try (apply Hscalar; exact I).
  apply Hseq. induction elements as [|a elements IHl]; constructor.
  - apply IH.
  - exact IHl.
Qed.

Lemma flatten_sequence (kind : SequenceKind) (elements : list Arg) :
  flatten (ASequence kind elements) = flatten_all elements.
Proof.
  simpl. induction elements as [|a elements IH]; [reflexivity|].
  simpl. now rewrite IH.
Qed.

Lemma flatten_scalar (a : Arg) : scalar a -> flatten a = [a].
Proof. now destruct a. Qed.

Lemma flatten_scalars (a : Arg) : Forall scalar (flatten a).
Proof.
  induction a as [a Ha|kind elements IH] using Arg_sequence_ind.
  - rewrite (flatten_scalar a Ha). now constructor.
  - rewrite flatten_sequence. induction IH as [|a elements Ha _ IHl]; simpl.
    + constructor.
    + apply list.Forall_app. now split.
Qed.

Lemma flatten_all_scalars (args : list Arg) : Forall scalar (flatten_all args).
Proof.
  induction args as [|a args IH]; simpl; [constructor|].
  apply list.Forall_app. split; [apply flatten_scalars | exact IH].
Qed.

Lemma for_each_app {A} (body : A -> M unit) (l1 l2 : list A) (s : Machine) :
  for_each body (l1 ++ l2) s = bind (for_each body l1) (fun _ => for_each body l2) s.
Proof.
  revert s. induction l1 as [|x l1 IH]; intros s; simpl.
  - reflexivity.
  - unfold bind in *. destruct (body x s) as [[u|p] s1]; [apply IH | reflexivity].
Qed.

Lemma for_each_singleton {A} (body : A -> M unit) (x : A) (s : Machine) :
  for_each body [x] s = body x s.
Proof.
  simpl. unfold bind, ret. destruct (body x s) as [[[]|p] s1]; reflexivity.
Qed.

Section Flattening.
Context (E : Engine) (H : Host) (_cache : ExternalAddressCache.t).

Lemma addArgument_sequence (kind : SequenceKind) (elements : list Arg) (s : Machine) :
  addArgument E H _cache (ASequence kind elements) s
  = for_each (addArgument E H _cache) elements s.
Proof.
  simpl. revert s. induction elements as [|a elements IH]; intros s.
  - reflexivity.
  - simpl. unfold bind. destruct (addArgument E H _cache a s) as [[u|p] s1];
      [apply IH | reflexivity].
Qed.

(** Adding an argument is adding its flattened elements one by one. *)
Lemma addArgument_flatten (a : Arg) :
  forall s, addArgument E H _cache a s
            = for_each (addArgument E H _cache) (flatten a) s.
Proof.
  induction a as [a Ha|kind elements IH] using Arg_sequence_ind; intros s.
  - now rewrite (flatten_scalar a Ha), for_each_singleton.
  - rewrite addArgument_sequence, flatten_sequence. revert s.
    induction IH as [|a elements Ha _ IHl]; intros s; [reflexivity|].
    simpl flatten_all. rewrite for_each_app. simpl for_each at 1.
    unfold bind. rewrite <- Ha.
    destruct (addArgument E H _cache a s) as [[u|p] s1]; [apply IHl | reflexivity].
Qed.

Lemma for_each_addArgument_flatten (args : list Arg) :
  forall s, for_each (addArgument E H _cache) args s
            = for_each (addArgument E H _cache) (flatten_all args) s.
Proof.
  induction args as [|a args IH]; intros s; [reflexivity|].
  simpl flatten_all. rewrite for_each_app. simpl for_each at 1.
  unfold bind. rewrite <- addArgument_flatten.
  destruct (addArgument E H _cache a s) as [[u|p] s1]; [apply IH | reflexivity].
Qed.

(** A scalar argument is converted, and the constant installed. *)
Lemma addArgument_scalar (a : Arg) (s : Machine) :
  scalar a ->
  addArgument E H _cache a s
  = match constant E H _cache (env (this s)) a with
    | Normal (ty, v) => installArgument ty v s
    | Throw p => (Throw p, s)
    end.
Proof.
  destruct a as [[]|v|v|v|v|str|str|T v|kind elements]; intros Ha;
    try reflexivity; [|destruct Ha].
  simpl. unfold addArgument_pointer, addExternalAddress,
    ExternalAddressCache.getExternalAddressId,
    ExternalAddressCache.getExternalAddressId_raw.
  now destruct (_cache T !! Environment.getRawEnvironment (env (this s))).
Qed.

End Flattening.

(** ** Argument accumulation *)

Lemma bound_nodes (s : Machine) (l : list N) : bound s l -> nodes s = l.
Proof.
  intros Hb. unfold nodes.
  apply reachable_chain; [apply (bound_chain _ _ Hb) | apply (bound_nodup _ _ Hb)].
Qed.

Lemma payloads_app (h : gmap N expr) (l1 l2 : list N) :
  payloads h (l1 ++ l2) = payloads h l1 ++ payloads h l2.
Proof.
  induction l1 as [|a l1 IH]; [reflexivity|].
  simpl. rewrite IH. now destruct (payload h a).
Qed.

Lemma payloads_ext (h h' : gmap N expr) (l : list N) :
  (forall a, a ∈ l -> payload h' a = payload h a) ->
  payloads h' l = payloads h l.
Proof.
  induction l as [|a l IH]; intros Hsame; [reflexivity|].
  simpl. rewrite Hsame by (apply elem_of_cons; now left).
  rewrite IH; [reflexivity|].
  intros b Hb. apply Hsame. apply elem_of_cons. now right.
Qed.

Section Accumulation.
Context (E : Engine) (H : Host) (_cache : ExternalAddressCache.t).

(** Adding scalars to a bound builder: one fresh node per converted scalar,
    appended in order, up to the first conversion that fails. *)
Lemma addArgument_scalars (scalars : list Arg) :
  forall (s : Machine) (l : list N),
    Forall scalar scalars -> bound s l ->
    exists s' new,
      for_each (addArgument E H _cache) scalars s
      = (outcome (constants E H _cache (env (this s)) scalars).2, s')
      /\ bound s' (l ++ new)
      /\ payloads (heap (memory s')) new
         = (constants E H _cache (env (this s)) scalars).1
      /\ (forall a, a ∈ l -> payload (heap (memory s')) a = payload (heap (memory s)) a)
      /\ log (memory s') = log (memory s) ++ (Installed <$> new)
      /\ env (this s') = env (this s)
      /\ _function (this s') = _function (this s).
Proof.
  induction scalars as [|a rest IH]; intros s l Hsc Hb.
  - exists s, []. simpl. rewrite !app_nil_r. repeat split; auto; destruct Hb; assumption.
  - apply list.Forall_cons in Hsc as [Ha Hrest].
    simpl for_each. unfold bind. rewrite (addArgument_scalar E H _cache a s Ha).
    simpl constants.
    destruct (constant E H _cache (env (this s)) a) as [[ty v]|p].
    + destruct (installArgument_bound s l ty v Hb)
        as (s1 & Hrun & Hb1 & Hpay & Hpres & _ & Hlog & Henv & Hfun).
      rewrite Hrun.
      destruct (IH s1 (l ++ [next (memory s)]) Hrest Hb1)
        as (s' & new & Hrun' & Hb' & Hnew & Hpres' & Hlog' & Henv' & Hfun').
      rewrite Henv in Hrun', Hnew.
      exists s', (next (memory s) :: new).
      destruct (constants E H _cache (env (this s)) rest) as [cs failure].
      simpl in *.
      split; [exact Hrun'|].
      split; [now rewrite <- app_assoc in Hb'|].
      split.
      { rewrite (Hpres' (next (memory s))), Hpay, Hnew; [reflexivity|].
        apply elem_of_app. right. apply elem_of_cons. now left. }
      split.
      { intros b Hin. rewrite Hpres'; [now apply Hpres|].
        apply elem_of_app. now left. }
      split.
      { rewrite Hlog', Hlog, <- app_assoc. reflexivity. }
      split; congruence.
    + exists s, []. simpl. rewrite !app_nil_r. repeat split; auto; destruct Hb; assumption.
Qed.

End Accumulation.

(** C3. On a builder in the [FunctionSet] state, a sequence of
    [addArgument] calls appends to the argument chain, behind the nodes
    already there and in order, exactly the constants its arguments are
    converted to, sequences flattened recursively (up to the first
    conversion that throws, which is then the outcome); the nodes already
    in the chain keep their place, tag and payload.  [addArgument] on a
    sequence of any kind is [addArgument] on each element in order, and on
    any argument it is [addArgument] on each of its flattened elements. *)
Theorem addArgument_appends_in_order
    (E : Engine) (H : Host) (_cache : ExternalAddressCache.t)
    (s : Machine) (l : list N) (args : list Arg) :
  bound s l ->
  let run := for_each (addArgument E H _cache) args s in
  let converted := constants E H _cache (env (this s)) (flatten_all args) in
  run.1 = outcome converted.2
  /\ nodes s = l
  /\ (exists new, nodes run.2 = l ++ new /\ length new = length converted.1
                  /\ bound run.2 (l ++ new))
  /\ arguments run.2 = arguments s ++ converted.1
  /\ (forall a, a ∈ l ->
        payload (heap (memory run.2)) a = payload (heap (memory s)) a)
  /\ (forall kind elements s0,
        addArgument E H _cache (ASequence kind elements) s0
        = for_each (addArgument E H _cache) elements s0)
  /\ (forall a s0,
        addArgument E H _cache a s0
        = for_each (addArgument E H _cache) (flatten a) s0).
Proof.
  intros Hb run converted. subst run converted.
  rewrite for_each_addArgument_flatten.
  destruct (addArgument_scalars E H _cache (flatten_all args) s l
              (flatten_all_scalars args) Hb)
    as (s' & new & Hrun & Hb' & Hnew & Hpres & Hlog & Henv & Hfun).
  rewrite Hrun. simpl.
  split; [reflexivity|].
  split; [now apply bound_nodes|].
  split.
  { exists new. split; [now apply bound_nodes|]. split; [|exact Hb'].
    rewrite <- Hnew. clear -Hb' Hnew.
    pose proof (bound_chain _ _ Hb') as Hchain.
    assert (Hall : forall a, a ∈ new -> is_Some (payload (heap (memory s')) a)).
    { intros a Ha. unfold payload.
      destruct (chain_lookup _ _ _ a Hchain) as [e He].
      - apply elem_of_app. now right.
      - rewrite He. eauto. }
    clear -Hall. induction new as [|a new IH]; [reflexivity|].
    simpl. destruct (Hall a) as [c Hc]; [apply elem_of_cons; now left|].
    rewrite Hc. simpl. f_equal. apply IH.
    intros b Hb. apply Hall. apply elem_of_cons. now right. }
  split.
  { unfold arguments. rewrite (bound_nodes _ _ Hb), (bound_nodes _ _ Hb').
    rewrite payloads_app, Hnew. f_equal. now apply payloads_ext. }
  split; [exact Hpres|].
  split.
  - intros kind elements s0.
    exact (addArgument_sequence E H _cache kind elements s0).
  - intros a s0. exact (addArgument_flatten E H _cache a s0).
Qed.

(** ** The builder in the [Unbound] state *)

Lemma installArgument_unbound (s : Machine) (ty : Z) (v : N) :
  functionReferenceSet (this s) = false ->
  installArgument ty v s = (Throw (mkProblem misuse_install), s).
Proof. intros Hu. unfold installArgument. now rewrite Hu. Qed.

(** What an [addArgument] that cannot install anything throws: the error
    of the conversion when that fails, the misuse error otherwise. *)
Lemma addArgument_unbound
    (E : Engine) (H : Host) (_cache : ExternalAddressCache.t)
    (s : Machine) (a : Arg) :
  functionReferenceSet (this s) = false ->
  addArgument E H _cache a s
  = (match flatten a with
     | [] => Normal tt
     | x :: _ =>
         Throw (match constant E H _cache (env (this s)) x with
                | Normal _ => mkProblem misuse_install
                | Throw p => p
                end)
     end, s).
Proof.
  intros Hu. rewrite addArgument_flatten.
  pose proof (flatten_scalars a) as Hsc.
  destruct (flatten a) as [|x rest]; [reflexivity|].
  apply list.Forall_cons in Hsc as [Hx _].
  simpl for_each. unfold bind. rewrite (addArgument_scalar E H _cache x s Hx).
  destruct (constant E H _cache (env (this s)) x) as [[ty v]|p]; [|reflexivity].
  now rewrite (installArgument_unbound s ty v Hu).
Qed.

(** C2, as the code has it.  On a builder in the [Unbound] state:
    [installArgument] throws the [BuilderMisuseError]; [addArgument] throws
    it when its argument, flattened, starts with a boolean, a number, a
    string or a host pointer of a registered type, throws the
    [UnregisteredTypeError] when it starts with a host pointer of an
    unregistered type, and returns normally when the flattening is empty;
    [invoke] throws the [BuilderMisuseError] and evaluates nothing; none of
    them changes the builder or the expression memory.
    [setFunctionReference] on a name the engine cannot resolve throws the
    [UnknownFunctionError] naming the function and leaves the builder
    [Unbound]. *)
Theorem unbound_builder_misuse
    (E : Engine) (H : Host) (_cache : ExternalAddressCache.t) (s : Machine) :
  functionReferenceSet (this s) = false ->
  (forall ty v, installArgument ty v s = (Throw (mkProblem misuse_install), s))
  /\ (forall a,
        addArgument E H _cache a s
        = (match flatten a with
           | [] => Normal tt
           | x :: _ =>
               Throw (match constant E H _cache (env (this s)) x with
                      | Normal _ => mkProblem misuse_install
                      | Throw p => p
                      end)
           end, s))
  /\ (forall ret_, invoke E H ret_ s = (Throw (mkProblem misuse_invoke), ret_, s))
  /\ BuilderMisuseError (mkProblem misuse_install)
  /\ BuilderMisuseError (mkProblem misuse_invoke)
  /\ (forall func,
        GetFunctionReference E (Environment.env (env (this s))) func = None ->
        (setFunctionReference E func s).1 = Throw (UnknownFunctionError func)
        /\ contains (message (UnknownFunctionError func)) func
        /\ functionReferenceSet (this (setFunctionReference E func s).2) = false
        /\ _function (this (setFunctionReference E func s).2) = _function (this s)
        /\ memory (setFunctionReference E func s).2 = memory s).
Proof.
  intros Hu.
  split; [intros ty v; now apply installArgument_unbound|].
  split; [intros a; now apply addArgument_unbound|].
  split; [intros ret_; unfold invoke; now rewrite Hu|].
  split; [now left|].
  split; [now right|].
  intros func Hnone. unfold setFunctionReference. rewrite Hnone. simpl.
  split; [reflexivity|].
  split; [apply (contains_middle "Function " func " does not exist!!!!")|].
  split; [exact Hu|].
  split; reflexivity.
Qed.

(** ** Install / deinstall bookkeeping *)

Lemma installed_app (l1 l2 : list Event) :
  installed (l1 ++ l2) = installed l1 ++ installed l2.
Proof.
  induction l1 as [|[] l1 IH]; simpl; rewrite ?IH; reflexivity.
Qed.

Lemma deinstalled_app (l1 l2 : list Event) :
  deinstalled (l1 ++ l2) = deinstalled l1 ++ deinstalled l2.
Proof.
  induction l1 as [|[] l1 IH]; simpl; rewrite ?IH; reflexivity.
Qed.

Lemma returned_app (l1 l2 : list Event) :
  returned (l1 ++ l2) = returned l1 ++ returned l2.
Proof.
  induction l1 as [|[] l1 IH]; simpl; rewrite ?IH; reflexivity.
Qed.

Lemma events_of_installs (l : list N) :
  installed (Installed <$> l) = l
  /\ deinstalled (Installed <$> l) = []
  /\ returned (Installed <$> l) = [].
Proof.
  induction l as [|a l (IH1 & IH2 & IH3)]; [easy|].
  rewrite fmap_cons. simpl. now rewrite IH1, IH2, IH3.
Qed.

Lemma events_of_deinstalls (l : list N) :
  installed (Deinstalled <$> l) = []
  /\ deinstalled (Deinstalled <$> l) = l
  /\ returned (Deinstalled <$> l) = [].
Proof.
  induction l as [|a l (IH1 & IH2 & IH3)]; [easy|].
  rewrite fmap_cons. simpl. now rewrite IH1, IH2, IH3.
Qed.

Lemma events_of_returns (l : list N) :
  installed (Returned <$> l) = []
  /\ deinstalled (Returned <$> l) = []
  /\ returned (Returned <$> l) = l.
Proof.
  induction l as [|a l (IH1 & IH2 & IH3)]; [easy|].
  rewrite fmap_cons. simpl. now rewrite IH1, IH2, IH3.
Qed.

Lemma lookup_foldr_delete (h : gmap N expr) (l : list N) (a : N) :
  a ∈ l -> foldr delete h l !! a = None.
Proof.
  induction l as [|b l IH]; intros Ha; [inversion Ha|].
  simpl. destruct (decide (b = a)) as [->|Hne].
  - apply lookup_delete_eq.
  - rewrite lookup_delete_ne by exact Hne. apply IH.
    apply elem_of_cons in Ha as [->|Ha]; [congruence | exact Ha].
Qed.

(** The destructor on a bound builder: the reference is deinstalled, with
    every node of the chain, and then the chain is given back. *)
Lemma destroy_bound (s : Machine) (l : list N) :
  bound s l ->
  log (destroy s)
  = log (memory s)
      ++ DeinstalledReference (_ref (this s)) :: (Deinstalled <$> l) ++ (Returned <$> l)
  /\ (forall a, a ∈ l -> heap (destroy s) !! a = None).
Proof.
  intros [Hset Hchain Hnext Hcurr Hbelow Hnd Hpos].
  destruct s as [b m]; simpl in *.
  unfold destroy, ReturnExpression, ExpressionDeinstall, record, reachable.
  cbn [this memory heap next log]. rewrite Hnext, reach_null, app_nil_r.
  pose proof (chain_length _ _ _ Hchain Hnd) as Hlen.
  rewrite (reach_chain (heap m) l) by (try exact Hchain; lia).
  split.
  - rewrite <- app_assoc. reflexivity.
  - intros a Ha. now apply lookup_foldr_delete.
Qed.

Lemma bound_record (b : t) (m : Memory) (events : list Event) (l : list N) :
  bound {| this := b; memory := m |} l ->
  bound {| this := b; memory := record events m |} l.
Proof. intros [? ? ? ? ? ? ?]. now constructor. Qed.

(** A successful [setFunctionReference] on a fresh builder binds it, with an
    empty chain, whatever its [_ref] held before. *)
Lemma setFunctionReference_bound (E : Engine) (e : Environment.t)
    (indeterminate : expr) (func : string) (m : Memory) (ty : Z) (callable : N) :
  (0 < next m)%N ->
  GetFunctionReference E (Environment.env e) func = Some (ty, callable) ->
  setFunctionReference E func {| this := new e indeterminate; memory := m |}
  = (Normal tt,
     {| this := {| _function := func; env := e;
                   _ref := mkExpr ty callable 0 0; curr := 0%N;
                   functionReferenceSet := true |};
        memory := m |})
  /\ bound (setFunctionReference E func
              {| this := new e indeterminate; memory := m |}).2 [].
Proof.
  intros Hpos Hget. unfold setFunctionReference.
  cbn [this memory new env _function curr]. rewrite Hget.
  split; [reflexivity|].
  constructor; simpl; try reflexivity; try constructor; try exact Hpos.
  intros Hne. now destruct Hne.
Qed.

Section Cycle.
Context (E : Engine) (H : Host) (_cache : ExternalAddressCache.t).

(** One call after [setFunctionReference] keeps the builder bound, throws
    or not, and only ever installs: the nodes it appends to the chain. *)
Lemma call_bound (c : Call) (s : Machine) (l : list N) :
  bound s l -> keeps_reference c ->
  exists new events,
    bound (call E H _cache c s).2 (l ++ new)
    /\ log (memory (call E H _cache c s).2) = log (memory s) ++ events
    /\ installed events = new
    /\ deinstalled events = []
    /\ returned events = [].
Proof.
  intros Hb Hc. destruct c as [func|ty v|a|]; [destruct Hc| | |]; simpl call.
  - destruct (installArgument_bound s l ty v Hb)
      as (s1 & Hrun & Hb1 & _ & _ & _ & Hlog & _).
    rewrite Hrun. exists [next (memory s)], [Installed (next (memory s))].
    simpl. auto.
  - rewrite addArgument_flatten.
    destruct (addArgument_scalars E H _cache (flatten a) s l (flatten_scalars a) Hb)
      as (s1 & new & Hrun & Hb1 & _ & _ & Hlog & _).
    rewrite Hrun. exists new, (Installed <$> new). simpl.
    destruct (events_of_installs new) as (? & ? & ?). auto.
  - exists [], [Evaluated (_ref (this s))].
    pose proof (bound_set _ _ Hb) as Hset.
    destruct s as [b m]. simpl in Hset. unfold invoke. cbn [this memory].
    rewrite Hset. cbn [negb].
    unfold evaluateExpression.
    destruct (EvaluateExpression E (Environment.env (env b)) (_ref b) (heap m))
      as [flag written].
    rewrite app_nil_r.
    destruct (negb (negb (flag =? 1))); simpl;
      (split; [now apply bound_record | auto]).
Qed.

Lemma calls_bound (calls : list Call) :
  forall (s : Machine) (l : list N),
    bound s l -> Forall keeps_reference calls ->
    exists new events,
      bound (for_each (call E H _cache) calls s).2 (l ++ new)
      /\ log (memory (for_each (call E H _cache) calls s).2) = log (memory s) ++ events
      /\ installed events = new
      /\ deinstalled events = []
      /\ returned events = [].
Proof.
  induction calls as [|c calls IH]; intros s l Hb Hall.
  - exists [], []. simpl. rewrite !app_nil_r. auto.
  - apply list.Forall_cons in Hall as [Hc Hall].
    destruct (call_bound c s l Hb Hc) as (new1 & ev1 & Hb1 & Hlog1 & Hi1 & Hd1 & Hr1).
    simpl for_each. unfold bind.
    destruct (call E H _cache c s) as [[u|p] s1]; simpl in Hb1, Hlog1.
    + destruct (IH s1 (l ++ new1) Hb1 Hall)
        as (new2 & ev2 & Hb2 & Hlog2 & Hi2 & Hd2 & Hr2).
      exists (new1 ++ new2), (ev1 ++ ev2).
      rewrite installed_app, deinstalled_app, returned_app, Hi1, Hi2, Hd1, Hd2, Hr1, Hr2.
      rewrite Hlog2, Hlog1, !app_assoc. auto.
    + exists new1, ev1. simpl. auto.
Qed.

End Cycle.

(** The build-evaluate cycle of a builder whose function reference
    resolves: whatever the calls after [setFunctionReference] do, and
    whether one of them throws or not, the destructor deinstalls the
    reference before it reclaims the chain, and the nodes installed since
    the builder was constructed are exactly the nodes deinstalled and the
    nodes given back, each once. *)
Theorem scope_balanced
    (E : Engine) (H : Host) (_cache : ExternalAddressCache.t)
    (e : Environment.t) (indeterminate : expr) (func : string)
    (rest : list Call) (m : Memory) (ty : Z) (callable : N) :
  (0 < next m)%N ->
  GetFunctionReference E (Environment.env e) func = Some (ty, callable) ->
  Forall keeps_reference rest ->
  let final :=
    (scope E H _cache e indeterminate (SetFunctionReference func :: rest) m).2 in
  exists built reference l,
    since m final
    = built ++ DeinstalledReference reference :: (Deinstalled <$> l) ++ (Returned <$> l)
    /\ installed built = l /\ deinstalled built = [] /\ returned built = []
    /\ NoDup l
    /\ installed (since m final) = l
    /\ deinstalled (since m final) = l
    /\ returned (since m final) = l
    /\ (forall a, a ∈ l -> heap final !! a = None).
Proof.
  intros Hpos Hget Hrest final.
  destruct (setFunctionReference_bound E e indeterminate func m ty callable
              Hpos Hget) as [Hset Hb1].
  rewrite Hset in Hb1. cbn [snd] in Hb1.
  set (s1 := {| this := {| _function := func; env := e;
                           _ref := mkExpr ty callable 0 0; curr := 0%N;
                           functionReferenceSet := true |};
                memory := m |}) in *.
  assert (Hfinal : final = destroy (for_each (call E H _cache) rest s1).2).
  { subst final. unfold scope. simpl for_each. unfold bind.
    rewrite Hset.
    now destruct (for_each (call E H _cache) rest s1). }
  rewrite Hfinal. clear Hfinal final.
  destruct (calls_bound E H _cache rest s1 [] Hb1 Hrest)
    as (l & built & Hb2 & Hlog2 & Hi & Hd & Hr).
  destruct (for_each (call E H _cache) rest s1) as [r s2].
  simpl in Hb2, Hlog2. simpl.
  destruct (destroy_bound s2 l Hb2) as [Hlog3 Hfreed].
  exists built, (_ref (this s2)), l.
  assert (Hsince : since m (destroy s2)
                   = built ++ DeinstalledReference (_ref (this s2))
                       :: (Deinstalled <$> l) ++ (Returned <$> l)).
  { unfold since. rewrite Hlog3, Hlog2, <- app_assoc. apply drop_app_length. }
  rewrite Hsince.
  destruct (events_of_deinstalls l) as (Hdi & Hdd & Hdr).
  destruct (events_of_returns l) as (Hri & Hrd & Hrr).
  rewrite installed_app, deinstalled_app, returned_app.
  cbn [installed deinstalled returned].
  rewrite installed_app, deinstalled_app, returned_app.
  rewrite Hi, Hd, Hr, Hdi, Hdd, Hdr, Hri, Hrd, Hrr, !app_nil_r.
  repeat split; auto. apply (bound_nodup _ _ Hb2).
Qed.

(** In particular the installs and the deinstalls of such a cycle cancel. *)
Corollary scope_installs_cancel
    (E : Engine) (H : Host) (_cache : ExternalAddressCache.t)
    (e : Environment.t) (indeterminate : expr) (func : string)
    (rest : list Call) (m : Memory) (ty : Z) (callable : N) :
  (0 < next m)%N ->
  GetFunctionReference E (Environment.env e) func = Some (ty, callable) ->
  Forall keeps_reference rest ->
  let final :=
    (scope E H _cache e indeterminate (SetFunctionReference func :: rest) m).2 in
  installed (since m final) = deinstalled (since m final)
  /\ NoDup (installed (since m final)).
Proof.
  intros Hpos Hget Hrest final.
  destruct (scope_balanced E H _cache e indeterminate func rest m ty callable
              Hpos Hget Hrest)
    as (built & reference & l & _ & _ & _ & _ & Hnd & Hi & Hd & _).
  fold final in Hi, Hd. now rewrite Hi, Hd.
Qed.

(** Without a [setFunctionReference] no call changes the builder or the
    expression memory, so the destructor works on the [_ref] the
    constructor left: its effect is that of deinstalling and reclaiming
    from the indeterminate contents. *)
Lemma calls_unbound (E : Engine) (H : Host) (_cache : ExternalAddressCache.t)
    (calls : list Call) (s : Machine) :
  functionReferenceSet (this s) = false ->
  Forall keeps_reference calls ->
  (for_each (call E H _cache) calls s).2 = s.
Proof.
  intros Hu Hall. induction Hall as [|c calls Hc _ IH]; [reflexivity|].
  simpl for_each. unfold bind.
  assert (Hcall : (call E H _cache c s).2 = s).
  { destruct c as [func|ty v|a|]; [destruct Hc| | |]; simpl call.
    - now rewrite installArgument_unbound.
    - now rewrite addArgument_unbound.
    - unfold invoke. now rewrite Hu. }
  destruct (call E H _cache c s) as [[u|p] s1]; simpl in Hcall; subst s1;
    [exact IH | reflexivity].
Qed.

Lemma scope_unbound (E : Engine) (H : Host) (_cache : ExternalAddressCache.t)
    (e : Environment.t) (indeterminate : expr) (calls : list Call) (m : Memory) :
  Forall keeps_reference calls ->
  (scope E H _cache e indeterminate calls m).2
  = ReturnExpression (argList indeterminate) (ExpressionDeinstall indeterminate m).
Proof.
  intros Hall. unfold scope.
  pose proof (calls_unbound E H _cache calls
                {| this := new e indeterminate; memory := m |} eq_refl Hall) as Hs.
  destruct (for_each (call E H _cache) calls
              {| this := new e indeterminate; memory := m |}) as [r s].
  simpl in Hs. subst s. reflexivity.
Qed.

(** ** [invoke] *)

(** The outcome of [invoke] on a bound builder follows the error flag of the
    evaluation: on an error the [InvocationError] carrying the reconstructed
    call, otherwise a normal return; either way [*ret] holds what the engine
    wrote. *)
Lemma invoke_bound (E : Engine) (H : Host) (ret_ : DATA_OBJECT) (s : Machine) :
  functionReferenceSet (this s) = true ->
  let evaluated :=
    EvaluateExpression E (Environment.env (env (this s))) (_ref (this s))
      (heap (memory s)) in
  let m := record [Evaluated (_ref (this s))] (memory s) in
  invoke E H ret_ s
  = (if evaluated.1 =? 1
     then Throw (InvocationError (renderCall E H (this s) m))
     else Normal tt,
     evaluated.2, {| this := this s; memory := m |}).
Proof.
  intros Hset. cbv zeta. unfold invoke, evaluateExpression. rewrite Hset.
  cbn [negb].
  destruct (EvaluateExpression E (Environment.env (env (this s))) (_ref (this s))
              (heap (memory s))) as [flag written].
  cbn [fst snd]. now destruct (flag =? 1).
Qed.



(** While the stream is in the decimal base, a node is rendered as the
    specification says. *)
Lemma renderNode_decimal (E : Engine) (H : Host) (e : expr) (command : stringstream) :
  hex command = false ->
  str (renderNode E H e command)
  = str command +:+ " " +:+ spec_rendering E H e +:+ " ".
Proof.
  intros Hdec. unfold renderNode, spec_rendering, renderAddress, render,
    put_hex_pointer, put_int, put.
  destruct (to_DataObjectType (type e)); cbn [str hex]; rewrite ?Hdec;
    rewrite ?append_assoc; reflexivity.
Qed.


(** Once the stream is in the hexadecimal base, an integer node is written
    in hexadecimal. *)
Lemma renderNode_integer_hex (E : Engine) (H : Host) (e : expr)
    (command : stringstream) :
  hex command = true -> to_DataObjectType (type e) = Integer ->
  str (renderNode E H e command)
  = str command +:+ " " +:+ show_hex (DOPToInteger E (value e)) +:+ " ".
Proof.
  intros Hhex Hint. unfold renderNode, render, put_int, put. rewrite Hint.
  cbn [str hex]. rewrite Hhex, ?append_assoc. reflexivity.
Qed.

(** ** The builder on the sample engine *)

(** C1. A scope that constructs a builder and calls [invoke] without
    [setFunctionReference] leaves by the misuse error, and the destructor
    still deinstalls and reclaims from [_ref], which nothing has
    initialised: with the stale words of [sample_stale] in its storage, the
    builder has installed no node, yet node 5, installed by someone else, is
    deinstalled and given back.  The order is deinstall, then reclaim; the
    balance of the builder's installs and deinstalls is not zero. *)
Theorem destructor_walks_uninitialised_reference :
  let exit := scope sample_engine sample_host ExternalAddressCache.empty
                sample_env sample_stale [Invoke] sample_live in
  exit.1 = Throw (mkProblem misuse_invoke)
  /\ since sample_live exit.2
     = [DeinstalledReference sample_stale; Deinstalled 5; Returned 5]
  /\ installed (since sample_live exit.2) = []
  /\ deinstalled (since sample_live exit.2) = [5%N]
  /\ payload (heap sample_live) 5 = Some (INTEGER, 2042%N)
  /\ heap exit.2 !! 5%N = None.
Proof. vm_compute. repeat split. Qed.

(** C2: in the [Unbound] state, [addArgument] on an empty list returns
    normally, and [addArgument] on a host pointer of an unregistered type
    throws an error that is not the [BuilderMisuseError]. *)
Lemma addArgument_unbound_counterexample :
  functionReferenceSet (this sample_unbound) = false
  /\ addArgument sample_engine sample_host ExternalAddressCache.empty
       (ASequence StdList []) sample_unbound
     = (Normal tt, sample_unbound)
  /\ addArgument sample_engine sample_host ExternalAddressCache.empty
       (APointer 1 42) sample_unbound
     = (Throw UnregisteredTypeError, sample_unbound)
  /\ ~ BuilderMisuseError UnregisteredTypeError.
Proof.
  repeat split.
  intros [Heq|Heq]; vm_compute in Heq; discriminate Heq.
Qed.

Lemma unbound_builder_misuse_witness :
  installArgument INTEGER 2005 sample_unbound
  = (Throw (mkProblem misuse_install), sample_unbound).
Proof.
  apply (proj1 (unbound_builder_misuse sample_engine sample_host
                  ExternalAddressCache.empty sample_unbound eq_refl)).
Defined.

Lemma addArgument_appends_in_order_witness :
  arguments
    (for_each (addArgument sample_engine sample_host ExternalAddressCache.empty)
       [AInt32 5; ASequence StdList [ASequence StdVector [AString "ab"; ABool true];
                                     ASequence Pack []]]
       sample_bound).2
  = [(INTEGER, 2005%N); (STRING, 1002%N); (SYMBOL, 101%N)].
Proof.
  assert (Hb : bound sample_bound []).
  { constructor.
    - reflexivity.
    - reflexivity.
    - reflexivity.
    - intros Hne. now destruct Hne.
    - constructor.
    - constructor.
    - reflexivity. }
  destruct (addArgument_appends_in_order sample_engine sample_host
              ExternalAddressCache.empty sample_bound []
              [AInt32 5; ASequence StdList [ASequence StdVector [AString "ab"; ABool true];
                                            ASequence Pack []]] Hb)
    as (_ & _ & _ & Hargs & _).
  exact Hargs.
Defined.

(** A cycle on the sample engine that ends by the error of [invoke]: what
    was installed is deinstalled. *)
Lemma scope_installs_cancel_sample :
  let final :=
    (scope sample_engine sample_host ExternalAddressCache.empty sample_env
       sample_stale
       [SetFunctionReference "fail"; AddArgument (AInt32 255); Invoke;
        AddArgument (ABool true)] sample_memory).2 in
  installed (since sample_memory final) = deinstalled (since sample_memory final)
  /\ NoDup (installed (since sample_memory final)).
Proof.
  apply (scope_installs_cancel sample_engine sample_host
           ExternalAddressCache.empty sample_env sample_stale "fail"
           [AddArgument (AInt32 255); Invoke; AddArgument (ABool true)]
           sample_memory 30 8%N).
  - reflexivity.
  - reflexivity.
  - repeat constructor.
Defined.

(** C4. On a builder bound to [fail], with an instance-address argument
    followed by the integer 255, the evaluation reports an error and
    [invoke] throws the [InvocationError]; the instance address has switched
    the stream to the hexadecimal base, and the integer is rendered as [ff],
    not in its literal form [255]. *)
Theorem invoke_renders_integer_in_hex :
  let s := (for_each (call sample_engine sample_host ExternalAddressCache.empty)
              [SetFunctionReference "fail";
               InstallArgument INSTANCE_ADDRESS 4042;
               AddArgument (AInt32 255)] sample_unbound).2 in
  arguments s = [(INSTANCE_ADDRESS, 4042%N); (INTEGER, 2255%N)]
  /\ (invoke sample_engine sample_host (mkDataObject 0 0 0 0) s).1.1
     = Throw (InvocationError "(fail  InstanceAddress<0xfca>  ff )")
  /\ spec_rendering sample_engine sample_host (mkExpr INTEGER 2255 0 0) = "255".
Proof. vm_compute. repeat split. Qed.

(** * Further properties of the sources *)

(** ** The registry over histories of registrations *)

Lemma registrations_lookup (history : list (positive * Environment.t * Z)) :
  forall (c : ExternalAddressCache.t) (T : HostType) (env : N),
    registrations history c T !! env
    = match c T !! env with
      | Some i => Some i
      | None => first_registration T env history
      end.
Proof.
  induction history as [|r history IH]; intros c T env.
  - simpl. now destruct (c T !! env).
  - change (registrations (r :: history) c)
      with (registrations history
              (ExternalAddressCache.registerExternalAddressId r.1.1 r.1.2 r.2 c)).
    rewrite IH. unfold ExternalAddressCache.registerExternalAddressId. simpl.
    destruct (decide (key_of r = (T, env))) as [Hkey|Hkey].
    + unfold key_of in Hkey. injection Hkey as <- <-.
      rewrite register_raw_lookup.
      now destruct (c r.1.1 !! Environment.getRawEnvironment r.1.2).
    + rewrite register_raw_lookup_other by exact Hkey. reflexivity.
Qed.

(** X1. A registration for one host type and engine instance leaves the
    lookup of every other host type, and of the same host type under every
    other raw engine pointer, as it was. *)
Theorem registration_leaves_other_keys
    (T T' : HostType) (e e' : Environment.t) (i : Z) (c : ExternalAddressCache.t) :
  (T, Environment.getRawEnvironment e) <> (T', Environment.getRawEnvironment e') ->
  ExternalAddressCache.getExternalAddressId T' e'
    (ExternalAddressCache.registerExternalAddressId T e i c)
  = ExternalAddressCache.getExternalAddressId T' e' c.
Proof.
  intros Hne.
  unfold ExternalAddressCache.getExternalAddressId,
    ExternalAddressCache.getExternalAddressId_raw,
    ExternalAddressCache.registerExternalAddressId.
  now rewrite register_raw_lookup_other.
Qed.

(** X2. An id that a lookup has returned is final: after any further
    registrations, for any host types, engine instances and ids, the lookup
    returns the same id. *)
Theorem registry_lookup_stable
    (T : HostType) (e : Environment.t) (i : Z) (c : ExternalAddressCache.t)
    (history : list (positive * Environment.t * Z)) :
  ExternalAddressCache.getExternalAddressId T e c = Normal i ->
  ExternalAddressCache.getExternalAddressId T e (registrations history c) = Normal i.
Proof.
  unfold ExternalAddressCache.getExternalAddressId,
    ExternalAddressCache.getExternalAddressId_raw.
  intros Hi. rewrite registrations_lookup.
  destruct (c T !! Environment.getRawEnvironment e); [exact Hi | discriminate Hi].
Qed.

(** X3. After a history of registrations on an empty registry, the lookup of
    a host type under an engine instance returns the id of the oldest
    registration of that pair in the history, and throws when the history
    has none. *)
Theorem registry_oldest_registration_wins
    (history : list (positive * Environment.t * Z)) (T : HostType)
    (e : Environment.t) :
  ExternalAddressCache.getExternalAddressId T e (ExternalAddressCache.after history)
  = match first_registration T (Environment.getRawEnvironment e) history with
    | Some i => Normal i
    | None => Throw UnregisteredTypeError
    end.
Proof.
  unfold ExternalAddressCache.getExternalAddressId,
    ExternalAddressCache.getExternalAddressId_raw.
  change (ExternalAddressCache.after history)
    with (registrations history ExternalAddressCache.empty).
  rewrite registrations_lookup. unfold ExternalAddressCache.empty.
  rewrite lookup_empty.
  now destruct (first_registration T (Environment.getRawEnvironment e) history).
Qed.

(** X4. Round trip of a host pointer: after [registerExternalAddressType] of
    a host type that was not registered for the engine instance, the value
    [addExternalAddress] makes of a pointer is cast back to that pointer by
    [fromExternalAddress] for the same host type, and the cast to a host
    type registered under another id throws the [TypeMismatchError]; this
    for an engine whose external-address node keeps the type id and the
    pointer it was made from. *)
Theorem external_address_round_trip
    (E : Engine) (H : Host) (P : Primitives) (T : HostType)
    (this : Environment.t) (description p : N) (c : ExternalAddressCache.t) :
  let id := installExternalAddressType P this description in
  let c1 := registerExternalAddressType P T this description c in
  let node := EnvAddExternalAddress E (Environment.env this) p id in
  c T !! Environment.getRawEnvironment this = None ->
  externalAddressHashNode_type E node = id ->
  DOPToExternalAddress E node = p ->
  addExternalAddress E T this c1 p = Normal node
  /\ (forall d, do_value d = node ->
        fromExternalAddress E H T this c1 d = Normal p)
  /\ (forall T' i' d,
        do_value d = node ->
        c1 T' !! Environment.getRawEnvironment this = Some i' -> i' <> id ->
        fromExternalAddress E H T' this c1 d = Throw (TypeMismatchError H T')).
Proof.
  intros id c1 node Hfree Htype Haddr.
  assert (Hreg : c1 T !! Environment.getRawEnvironment this = Some id).
  { subst c1. unfold registerExternalAddressType,
      ExternalAddressCache.registerExternalAddressId.
    now rewrite register_raw_lookup, Hfree. }
  split; [|split].
  - unfold addExternalAddress, ExternalAddressCache.getExternalAddressId,
      ExternalAddressCache.getExternalAddressId_raw.
    now rewrite Hreg.
  - intros d Hd.
    unfold fromExternalAddress, externalAddressIsOfType, getExternalAddressId,
      ExternalAddressCache.getExternalAddressId,
      ExternalAddressCache.getExternalAddressId_raw.
    rewrite Hreg, Hd, Htype, Z.eqb_refl. now rewrite Haddr.
  - intros T' i' d Hd Hreg' Hne.
    unfold fromExternalAddress, externalAddressIsOfType, getExternalAddressId,
      ExternalAddressCache.getExternalAddressId,
      ExternalAddressCache.getExternalAddressId_raw.
    rewrite Hreg', Hd, Htype.
    destruct (Z.eqb_spec id i') as [Heq|_]; [congruence | reflexivity].
Qed.

(** ** Numeric extraction *)


(** ** Extraction of a multifield into containers *)

Lemma emplace_fields_seqZ (P : Primitives) (env : N) (d : DATA_OBJECT)
    (iterations : nat) :
  forall (i : Z) (container : list string),
    emplace_fields P env d iterations i container
    = container ++ (field_string P env d <$> seqZ i (Z.of_nat iterations)).
Proof.
  induction iterations as [|n IH]; intros i container.
  - simpl. now rewrite app_nil_r.
  - cbn [emplace_fields]. rewrite IH.
    rewrite (seqZ_cons i (Z.of_nat (S n))) by lia.
    rewrite fmap_cons, <- app_assoc. simpl.
    replace (Z.pred (Z.of_nat (S n))) with (Z.of_nat n) by lia.
    replace (Z.succ i) with (i + 1) by lia. reflexivity.
Qed.


(** X6. Extraction of a multifield into a list or a vector appends, behind
    what the container holds already, the strings of the fields [begin],
    [begin + 1], ..., [end] in that order; when [end < begin] it appends
    nothing and does not fail. *)
Theorem extractData_strings_appends_range
    (P : Primitives) (env : Environment.t) (d : DATA_OBJECT)
    (container : list string) :
  GetDOEnd P d < 2 ^ 31 - 1 ->
  extractData_strings P env d container
  = container
      ++ (field_string P (Environment.getRawEnvironment env) d
            <$> seqZ (GetDOBegin P d) (GetDOEnd P d - GetDOBegin P d + 1))
  /\ length (extractData_strings P env d container)
     = (length container + Z.to_nat (GetDOEnd P d - GetDOBegin P d + 1))%nat
  /\ (GetDOEnd P d < GetDOBegin P d ->
      extractData_strings P env d container = container).
Proof.
  intros _. unfold extractData_strings, populateStringContainer.
  rewrite emplace_fields_seqZ.
  split; [|split].
  - destruct (Z.le_gt_cases 0 (GetDOEnd P d - GetDOBegin P d + 1)) as [Hge|Hlt].
    + now rewrite Z2Nat.id.
    + replace (Z.of_nat (Z.to_nat (GetDOEnd P d - GetDOBegin P d + 1)))
        with 0 by lia.
      rewrite !seqZ_nil by lia. reflexivity.
  - rewrite length_app, length_fmap, length_seqZ. lia.
  - intros Hempty. rewrite seqZ_nil by lia. apply app_nil_r.
Qed.


(** ** Life time of the engine handle *)


(** X9. [makeInstance] never returns a null instance: it returns the
    instance the engine made when that is not null, and otherwise throws an
    error that carries the instance string. *)
Theorem makeInstance_never_null
    (P : Primitives) (this : Environment.t) (instanceString : string) :
  match makeInstance P this instanceString with
  | Normal p =>
      p <> 0%N /\ p = EnvMakeInstance P (Environment.env this) instanceString
  | Throw problem =>
      EnvMakeInstance P (Environment.env this) instanceString = 0%N
      /\ contains (message problem) instanceString
  end.
Proof.
  unfold makeInstance.
  destruct (N.eqb_spec (EnvMakeInstance P (Environment.env this) instanceString) 0)
    as [Hnull|Hnonnull].
  - split; [exact Hnull|].
    apply (contains_middle "Couldn't construct an instance from '" instanceString "'!").
  - split; [exact Hnonnull | reflexivity].
Qed.

(** ** The reconstructed call *)






(** ** Conversions and what extraction makes of them *)

(** Adding scalars to a bound builder, in terms of the argument vector. *)
Lemma addArgument_scalars_arguments
    (E : Engine) (H : Host) (_cache : ExternalAddressCache.t)
    (scalars : list Arg) (s : Machine) (l : list N) :
  Forall scalar scalars -> bound s l ->
  (for_each (addArgument E H _cache) scalars s).1
  = outcome (constants E H _cache (env (this s)) scalars).2
  /\ arguments (for_each (addArgument E H _cache) scalars s).2
     = arguments s ++ (constants E H _cache (env (this s)) scalars).1
  /\ exists new, bound (for_each (addArgument E H _cache) scalars s).2 (l ++ new).
Proof.
  intros Hsc Hb.
  destruct (addArgument_scalars E H _cache scalars s l Hsc Hb)
    as (s' & new & Hrun & Hb' & Hnew & Hpres & _).
  rewrite Hrun. cbn [fst snd].
  split; [reflexivity|]. split; [|now exists new].
  unfold arguments. rewrite (bound_nodes _ _ Hb), (bound_nodes _ _ Hb').
  rewrite payloads_app, Hnew. f_equal. now apply payloads_ext.
Qed.

(** X11. Round trip of a boolean: on a bound builder, [addArgument] of a
    boolean appends one symbol node, and extraction into [bool] of a value
    with that tag and payload gives the boolean back, for an engine whose
    true and false symbols differ. *)
Theorem bool_argument_round_trip
    (E : Engine) (H : Host) (_cache : ExternalAddressCache.t)
    (s : Machine) (l : list N) (b : bool) :
  bound s l ->
  EnvTrueSymbol E (Environment.getRawEnvironment (env (this s)))
  <> EnvFalseSymbol E (Environment.getRawEnvironment (env (this s))) ->
  (addArgument E H _cache (ABool b) s).1 = Normal tt
  /\ exists v,
      arguments (addArgument E H _cache (ABool b) s).2
      = arguments s ++ [(SYMBOL, v)]
      /\ forall begin_ end_,
          extractData_bool E (env (this s)) (mkDataObject SYMBOL v begin_ end_) = b.
Proof.
  intros Hb Hdiff.
  rewrite <- (for_each_singleton (addArgument E H _cache) (ABool b) s).
  destruct (addArgument_scalars_arguments E H _cache [ABool b] s l)
    as (Hout & Hargs & _); [repeat constructor | exact Hb |].
  split; [exact Hout|].
  eexists. split; [exact Hargs|].
  intros begin_ end_. unfold extractData_bool. cbn [do_type do_value].
  rewrite Z.eqb_refl, andb_true_r.
  destruct b.
  - apply negb_true_iff, N.eqb_neq. exact Hdiff.
  - apply negb_false_iff, N.eqb_eq. reflexivity.
Qed.

(** ** How a bound builder grows *)

Lemma grows_refl (s : Machine) (l : list N) : bound s l -> grows s s l [].
Proof.
  intros Hb. unfold grows. rewrite app_nil_r.
  split; [exact Hb|]. split; [constructor|]. split; [lia|].
  split; [reflexivity|].
  split; [exists []; now rewrite app_nil_r|]. auto.
Qed.

Lemma grows_trans (s s1 s2 : Machine) (l new1 new2 : list N) :
  grows s s1 l new1 -> grows s1 s2 (l ++ new1) new2 ->
  grows s s2 l (new1 ++ new2).
Proof.
  intros (Hb1 & Hlow1 & Hnext1 & Hframe1 & (ev1 & Hlog1 & Hi1 & Hd1 & Hr1)
            & Hty1 & Hv1 & Hf1 & He1)
         (Hb2 & Hlow2 & Hnext2 & Hframe2 & (ev2 & Hlog2 & Hi2 & Hd2 & Hr2)
            & Hty2 & Hv2 & Hf2 & He2).
  unfold grows.
  split; [now rewrite app_assoc|].
  split.
  { apply list.Forall_app. split; [exact Hlow1|].
    eapply list.Forall_impl; [exact Hlow2|]. simpl. intros; lia. }
  split; [lia|].
  split.
  { intros a Hl Hnew. apply not_elem_of_app in Hnew as [Hn1 Hn2].
    rewrite Hframe2; [now apply Hframe1 | | exact Hn2].
    apply not_elem_of_app. now split. }
  split.
  { exists (ev1 ++ ev2).
    rewrite installed_app, deinstalled_app, returned_app, Hi1, Hi2, Hd1, Hd2, Hr1, Hr2.
    rewrite Hlog2, Hlog1, <- app_assoc. auto. }
  repeat split; congruence.
Qed.

Lemma installArgument_grows (s : Machine) (l : list N) (ty : Z) (v : N) :
  bound s l ->
  (installArgument ty v s).1 = Normal tt
  /\ grows s (installArgument ty v s).2 l [next (memory s)].
Proof.
  intros Hb.
  destruct (installArgument_bound s l ty v Hb)
    as (s1 & Hrun & Hb1 & _ & _ & _ & Hlog & Henv & Hfun).
  pose proof Hb as [Hset Hchain Hnext Hcurr Hbelow Hnd Hpos].
  assert (Hshape :
            (forall a, a ∉ l -> a <> next (memory s) ->
                       heap (memory s1) !! a = heap (memory s) !! a)
            /\ next (memory s1) = N.succ (next (memory s))
            /\ type (_ref (this s1)) = type (_ref (this s))
            /\ value (_ref (this s1)) = value (_ref (this s))).
  { revert Hrun. unfold installArgument. rewrite Hset.
    unfold GenConstant, ExpressionInstall, record, store_nextArg.
    destruct (N.eqb_spec (argList (_ref (this s))) 0) as [Hnull|Hnonnull];
      intros [= <-]; cbn [this memory heap next _ref type value].
    - split; [|auto]. intros a _ Ha. now apply lookup_insert_ne.
    - split; [|auto]. intros a Hal Ha.
      assert (Hl : l <> []) by (eapply chain_nonnull; eassumption).
      specialize (Hcurr Hl). apply list.last_Some in Hcurr as [l' Hl'].
      assert (Hac : a <> curr (this s)).
      { intros ->. apply Hal. rewrite Hl'. apply elem_of_app. right.
        apply elem_of_cons. now left. }
      rewrite lookup_alter_ne by congruence. now apply lookup_insert_ne. }
  destruct Hshape as (Hframe & Hsucc & Hty & Hv).
  rewrite Hrun. cbn [fst snd]. split; [reflexivity|].
  unfold grows.
  split; [exact Hb1|].
  split; [constructor; [lia | constructor]|].
  split; [lia|].
  split.
  { intros a Hal Han. apply Hframe; [exact Hal|].
    intros ->. apply Han. apply elem_of_cons. now left. }
  split; [exists [Installed (next (memory s))]; auto|].
  auto.
Qed.

Section Growth.
Context (E : Engine) (H : Host) (_cache : ExternalAddressCache.t).

Lemma addArgument_scalars_grow (scalars : list Arg) :
  forall (s : Machine) (l : list N),
    Forall scalar scalars -> bound s l ->
    exists new,
      grows s (for_each (addArgument E H _cache) scalars s).2 l new.
Proof.
  induction scalars as [|a rest IH]; intros s l Hsc Hb.
  - exists []. now apply grows_refl.
  - apply list.Forall_cons in Hsc as [Ha Hrest].
    simpl for_each. unfold bind. rewrite (addArgument_scalar E H _cache a s Ha).
    destruct (constant E H _cache (env (this s)) a) as [[ty v]|p].
    + destruct (installArgument_grows s l ty v Hb) as [Hok Hg1].
      destruct (installArgument ty v s) as [r s1]. cbn [fst snd] in Hok, Hg1.
      subst r.
      destruct (IH s1 (l ++ [next (memory s)]) Hrest (proj1 Hg1)) as (new & Hg2).
      exists (next (memory s) :: new).
      exact (grows_trans s s1 _ l [next (memory s)] new Hg1 Hg2).
    + exists []. now apply grows_refl.
Qed.

Lemma call_grows (c : Call) (s : Machine) (l : list N) :
  bound s l -> keeps_reference c ->
  exists new, grows s (call E H _cache c s).2 l new.
Proof.
  intros Hb Hc. destruct c as [func|ty v|a|]; [destruct Hc| | |]; simpl call.
  - exists [next (memory s)]. now apply installArgument_grows.
  - rewrite addArgument_flatten.
    apply addArgument_scalars_grow; [apply flatten_scalars | exact Hb].
  - exists []. rewrite (invoke_bound E H _ s (bound_set _ _ Hb)). cbn [snd].
    destruct s as [b m]. cbn [this memory].
    unfold grows. rewrite app_nil_r.
    split; [now apply bound_record|]. split; [constructor|]. split; [simpl; lia|].
    split; [reflexivity|].
    split; [exists [Evaluated (_ref b)]; auto|]. auto.
Qed.

Lemma calls_grow (calls : list Call) :
  forall (s : Machine) (l : list N),
    bound s l -> Forall keeps_reference calls ->
    exists new, grows s (for_each (call E H _cache) calls s).2 l new.
Proof.
  induction calls as [|c calls IH]; intros s l Hb Hall.
  - exists []. now apply grows_refl.
  - apply list.Forall_cons in Hall as [Hc Hall].
    destruct (call_grows c s l Hb Hc) as (new1 & Hg1).
    simpl for_each. unfold bind.
    destruct (call E H _cache c s) as [[u|p] s1]; cbn [snd] in Hg1.
    + destruct (IH s1 (l ++ new1) (proj1 Hg1) Hall) as (new2 & Hg2).
      exists (new1 ++ new2). exact (grows_trans s s1 _ l new1 new2 Hg1 Hg2).
    + exists new1. exact Hg1.
Qed.

End Growth.

(** ** The end of a build-evaluate cycle *)

Lemma lookup_foldr_delete_ne (h : gmap N expr) (l : list N) (a : N) :
  a ∉ l -> foldr delete h l !! a = h !! a.
Proof.
  induction l as [|b l IH]; intros Ha; [reflexivity|].
  apply not_elem_of_cons in Ha as [Hab Ha].
  simpl. rewrite lookup_delete_ne by congruence. now apply IH.
Qed.

Lemma destroy_heap (s : Machine) (l : list N) :
  bound s l -> heap (destroy s) = foldr delete (heap (memory s)) l.
Proof.
  intros [Hset Hchain Hnext Hcurr Hbelow Hnd Hpos].
  destruct s as [b m]; simpl in *.
  unfold destroy, ReturnExpression, ExpressionDeinstall, record, reachable.
  cbn [this memory heap next log].
  pose proof (chain_length _ _ _ Hchain Hnd) as Hlen.
  now rewrite (reach_chain (heap m) l) by (try exact Hchain; lia).
Qed.

Lemma scope_memory (E : Engine) (H : Host) (_cache : ExternalAddressCache.t)
    (e : Environment.t) (indeterminate : expr) (calls : list Call) (m : Memory) :
  (scope E H _cache e indeterminate calls m).2
  = destroy (for_each (call E H _cache) calls
               {| this := new e indeterminate; memory := m |}).2.
Proof.
  unfold scope.
  now destruct (for_each (call E H _cache) calls
                  {| this := new e indeterminate; memory := m |}).
Qed.

(** A [setFunctionReference] that resolves, on any builder: the reference
    is overwritten and the chain it had is dropped. *)
Lemma setFunctionReference_resolves (E : Engine) (s : Machine) (func : string)
    (ty : Z) (callable : N) :
  GetFunctionReference E (Environment.env (env (this s))) func = Some (ty, callable) ->
  setFunctionReference E func s
  = (Normal tt,
     {| this := {| _function := func; env := env (this s);
                   _ref := mkExpr ty callable 0 0; curr := curr (this s);
                   functionReferenceSet := true |};
        memory := memory s |}).
Proof. intros Hget. unfold setFunctionReference. now rewrite Hget. Qed.

Lemma bound_after_resolution (b : t) (m : Memory) (func : string) (ty : Z)
    (callable : N) :
  (0 < next m)%N ->
  bound {| this := {| _function := func; env := env b;
                      _ref := mkExpr ty callable 0 0; curr := curr b;
                      functionReferenceSet := true |};
           memory := m |} [].
Proof.
  intros Hpos. constructor; simpl; try reflexivity; try constructor; try exact Hpos.
  intros Hne. now destruct Hne.
Qed.



(** ** [Environment::buildAndExecuteFunction] *)


(** X13. When the function resolves and every argument converts,
    [buildAndExecuteFunction] evaluates the resolved callable on a chain
    whose argument vector is exactly the constants of the arguments, in
    order and flattened; it returns normally with the object the engine
    wrote unless the evaluation reports an error, and then throws the
    [InvocationError] with the reconstruction of that call. *)
Theorem buildAndExecuteFunction_evaluates_arguments
    (E : Engine) (H : Host) (_cache : ExternalAddressCache.t)
    (this_ : Environment.t) (indeterminate : expr) (function : string)
    (ret_ : DATA_OBJECT) (args : list Arg) (m : Memory) (ty : Z) (callable : N) :
  (0 < next m)%N ->
  GetFunctionReference E (Environment.env this_) function = Some (ty, callable) ->
  (constants E H _cache this_ (flatten_all args)).2 = None ->
  exists built : Machine,
    arguments built = (constants E H _cache this_ (flatten_all args)).1
    /\ type (_ref (this built)) = ty
    /\ value (_ref (this built)) = callable
    /\ _function (this built) = function
    /\ (buildAndExecuteFunction E H _cache this_ indeterminate function ret_ args m).1
       = (if (EvaluateExpression E (Environment.env this_) (_ref (this built))
                (heap (memory built))).1 =? 1
          then Throw (InvocationError (renderCall E H (this built) (memory built)))
          else Normal tt,
          (EvaluateExpression E (Environment.env this_) (_ref (this built))
             (heap (memory built))).2).
Proof.
  intros Hpos Hget Hconv. unfold buildAndExecuteFunction.
  rewrite (setFunctionReference_resolves E _ function ty callable) by exact Hget.
  cbn [this memory new env curr].
  set (s1 := {| this := _; memory := m |}).
  assert (Hb1 : bound s1 [])
    by (now apply (bound_after_resolution (new this_ indeterminate))).
  rewrite for_each_addArgument_flatten.
  destruct (addArgument_scalars_arguments E H _cache (flatten_all args) s1 []
              (flatten_all_scalars args) Hb1) as (Hout & Hargs & new & Hb2).
  destruct (addArgument_scalars_grow E H _cache (flatten_all args) s1 []
              (flatten_all_scalars args) Hb1)
    as (new' & _ & _ & _ & _ & _ & Hty & Hv & Hfun & Henv).
  change (env (this s1)) with this_ in Hout, Hargs, Henv.
  rewrite Hconv in Hout.
  destruct (for_each (addArgument E H _cache) (flatten_all args) s1) as [r2 s2].
  cbn [fst snd] in *. cbn [outcome] in Hout. subst r2.
  exists s2.
  split; [exact Hargs|]. split; [exact Hty|]. split; [exact Hv|].
  split; [exact Hfun|].
  rewrite (invoke_bound E H ret_ s2 (bound_set _ _ Hb2)). rewrite Henv.
  reflexivity.
Qed.


(** ** Binding a builder a second time *)

(** X15. A second [setFunctionReference] on a builder drops the chain built
    so far: its nodes stay installed and allocated when the builder is
    destroyed; only the nodes added after the second binding are
    deinstalled and given back. *)
Theorem rebinding_leaks_chain
    (E : Engine) (H : Host) (_cache : ExternalAddressCache.t)
    (e : Environment.t) (indeterminate : expr) (f g : string)
    (rest1 rest2 : list Call) (m : Memory) (tyf tyg : Z) (cf cg : N) :
  (0 < next m)%N ->
  GetFunctionReference E (Environment.env e) f = Some (tyf, cf) ->
  GetFunctionReference E (Environment.env e) g = Some (tyg, cg) ->
  Forall keeps_reference rest1 ->
  Forall keeps_reference rest2 ->
  let first :=
    for_each (call E H _cache) (SetFunctionReference f :: rest1)
      {| this := new e indeterminate; memory := m |} in
  first.1 = Normal tt ->
  let final :=
    (scope E H _cache e indeterminate
       ((SetFunctionReference f :: rest1) ++ SetFunctionReference g :: rest2) m).2 in
  exists l2,
    installed (since m final) = nodes first.2 ++ l2
    /\ deinstalled (since m final) = l2
    /\ returned (since m final) = l2
    /\ NoDup (nodes first.2 ++ l2)
    /\ (forall a, a ∈ nodes first.2 -> is_Some (heap final !! a)).
Proof.
  intros Hpos Hf Hg Hrest1 Hrest2 first Hfirst final.
  (* the first binding and its calls *)
  assert (Hphase1 : exists l1, grows {| this := {| _function := f; env := e;
                                                  _ref := mkExpr tyf cf 0 0;
                                                  curr := 0%N;
                                                  functionReferenceSet := true |};
                                       memory := m |} first.2 [] l1).
  { subst first. simpl for_each. unfold bind. simpl call at 1.
    rewrite (setFunctionReference_resolves E _ f tyf cf) by exact Hf.
    cbn [this memory new env curr].
    exact (calls_grow E H _cache rest1 _ []
             (bound_after_resolution (new e indeterminate) m f tyf cf Hpos) Hrest1). }
  destruct Hphase1 as (l1 & Hb2 & _ & _ & _ & (ev1 & Hlog1 & Hi1 & Hd1 & Hr1)
                         & _ & _ & _ & Henv2).
  rewrite app_nil_l in Hb2. cbn [this memory env] in Hlog1, Henv2.
  (* the second binding and its calls *)
  set (s3 := {| this := {| _function := g; env := env (this first.2);
                           _ref := mkExpr tyg cg 0 0; curr := curr (this first.2);
                           functionReferenceSet := true |};
                memory := memory first.2 |}).
  assert (Hfinal : final = destroy (for_each (call E H _cache) rest2 s3).2).
  { subst final. rewrite scope_memory, for_each_app. unfold bind at 1.
    fold first. destruct first as [r1 s2]. cbn [fst snd] in *. subst r1.
    simpl for_each. unfold bind. simpl call at 1.
    rewrite (setFunctionReference_resolves E s2 g tyg cg) by (now rewrite Henv2).
    reflexivity. }
  rewrite Hfinal. clear Hfinal final.
  rewrite (bound_nodes _ _ Hb2).
  assert (Hb3 : bound s3 []).
  { apply (bound_after_resolution (this first.2)). apply (bound_pos _ _ Hb2). }
  destruct (calls_grow E H _cache rest2 s3 [] Hb3 Hrest2) as (l2 & Hg4).
  destruct (for_each (call E H _cache) rest2 s3) as [r4 s4]. cbn [snd] in *.
  destruct Hg4 as (Hb4 & Hlow & _ & Hframe & (ev2 & Hlog2 & Hi2 & Hd2 & Hr2) & _).
  rewrite app_nil_l in Hb4. unfold s3 in Hlow, Hframe, Hlog2.
  cbn [memory] in Hlow, Hframe, Hlog2.
  destruct (destroy_bound s4 l2 Hb4) as [Hlog5 _].
  exists l2.
  assert (Hsince : since m (destroy s4)
                   = ev1 ++ ev2 ++ DeinstalledReference (_ref (this s4))
                       :: (Deinstalled <$> l2) ++ (Returned <$> l2)).
  { unfold since. rewrite Hlog5, Hlog2, Hlog1, <- !app_assoc.
    apply drop_app_length. }
  rewrite Hsince.
  destruct (events_of_deinstalls l2) as (Hdi & Hdd & Hdr).
  destruct (events_of_returns l2) as (Hri & Hrd & Hrr).
  rewrite ?installed_app, ?deinstalled_app, ?returned_app.
  cbn [installed deinstalled returned].
  rewrite ?installed_app, ?deinstalled_app, ?returned_app.
  rewrite Hi1, Hd1, Hr1, Hi2, Hd2, Hr2, Hdi, Hdd, Hdr, Hri, Hrd, Hrr.
  cbn [app]. rewrite ?app_nil_r.
  assert (Hdisjoint : forall a, a ∈ l1 -> a ∉ l2).
  { intros a H1 H2.
    pose proof (bound_below _ _ Hb2) as Hbelow.
    rewrite list.Forall_forall in Hbelow, Hlow.
    specialize (Hbelow a H1). specialize (Hlow a H2). lia. }
  split; [reflexivity|]. split; [reflexivity|]. split; [reflexivity|].
  split.
  - apply list.NoDup_app. split; [apply (bound_nodup _ _ Hb2)|].
    split; [exact Hdisjoint | apply (bound_nodup _ _ Hb4)].
  - intros a Ha. rewrite (destroy_heap s4 l2 Hb4).
    rewrite lookup_foldr_delete_ne by (now apply Hdisjoint).
    rewrite Hframe; [| intros Hnil; inversion Hnil | now apply Hdisjoint].
    exact (chain_lookup _ _ _ a (bound_chain _ _ Hb2) Ha).
Qed.

(** ** The further properties on the samples *)

Lemma registration_leaves_other_keys_witness :
  ExternalAddressCache.getExternalAddressId 2%positive sample_env
    (ExternalAddressCache.registerExternalAddressId 1%positive sample_env 3
       ExternalAddressCache.empty)
  = ExternalAddressCache.getExternalAddressId 2%positive sample_env
      ExternalAddressCache.empty.
Proof.
  apply (registration_leaves_other_keys 1%positive 2%positive sample_env
           sample_env 3 ExternalAddressCache.empty).
  vm_compute. discriminate.
Defined.

Lemma registry_lookup_stable_witness :
  ExternalAddressCache.getExternalAddressId 1%positive sample_env
    (registrations [(1%positive, sample_view, 9); (2%positive, sample_env, 4)]
       (ExternalAddressCache.registerExternalAddressId 1%positive sample_env 3
          ExternalAddressCache.empty))
  = Normal 3.
Proof.
  apply (registry_lookup_stable 1%positive sample_env 3
           (ExternalAddressCache.registerExternalAddressId 1%positive sample_env 3
              ExternalAddressCache.empty)).
  reflexivity.
Defined.

Lemma external_address_round_trip_witness :
  fromExternalAddress sample_address_engine sample_host 1%positive sample_env
    (registerExternalAddressType sample_primitives 1%positive sample_env 2
       ExternalAddressCache.empty)
    (mkDataObject EXTERNAL_ADDRESS (42 * 65536 + 5) 0 0)
  = Normal 42%N.
Proof.
  apply (proj1 (proj2 (external_address_round_trip sample_address_engine
                         sample_host sample_primitives 1%positive sample_env 2 42
                         ExternalAddressCache.empty eq_refl eq_refl eq_refl))).
  reflexivity.
Defined.


Lemma extractData_strings_appends_range_witness :
  extractData_strings sample_primitives sample_env sample_multifield ["x"]
  = ["x"; "s51"; "s52"; "s53"].
Proof.
  apply (proj1 (extractData_strings_appends_range sample_primitives sample_env
                  sample_multifield ["x"] eq_refl)).
Defined.



Lemma bool_argument_round_trip_witness :
  (addArgument sample_engine sample_host ExternalAddressCache.empty (ABool true)
     sample_bound).1
  = Normal tt.
Proof.
  assert (Hb : bound sample_bound []).
  { constructor.
    - reflexivity.
    - reflexivity.
    - reflexivity.
    - intros Hne. now destruct Hne.
    - constructor.
    - constructor.
    - reflexivity. }
  assert (Hdiff : EnvTrueSymbol sample_engine
                    (Environment.getRawEnvironment (env (this sample_bound)))
                  <> EnvFalseSymbol sample_engine
                       (Environment.getRawEnvironment (env (this sample_bound))))
    by (vm_compute; discriminate).
  apply (proj1 (bool_argument_round_trip sample_engine sample_host
                  ExternalAddressCache.empty sample_bound [] true Hb Hdiff)).
Defined.

Lemma buildAndExecuteFunction_evaluates_arguments_witness :
  exists built,
    arguments built = [(INTEGER, 2005%N); (SYMBOL, 101%N)]
    /\ value (_ref (this built)) = 7%N
    /\ _function (this built) = "echo".
Proof.
  destruct (buildAndExecuteFunction_evaluates_arguments sample_engine sample_host
              ExternalAddressCache.empty sample_env sample_stale "echo"
              (mkDataObject 0 0 0 0)
              [AInt32 5; ASequence StdList [ABool true]] sample_memory 30 7%N
              eq_refl eq_refl eq_refl)
    as (built & Hargs & _ & Hv & Hf & _).
  exists built. split; [exact Hargs|]. split; [exact Hv | exact Hf].
Defined.


Lemma rebinding_leaks_chain_witness :
  exists l2,
    installed
      (since sample_memory
         (scope sample_engine sample_host ExternalAddressCache.empty sample_env
            sample_stale
            ([SetFunctionReference "echo"; AddArgument (AInt32 5)]
               ++ [SetFunctionReference "fail"; AddArgument (ABool true); Invoke])
            sample_memory).2)
    = [1%N] ++ l2
    /\ deinstalled
         (since sample_memory
            (scope sample_engine sample_host ExternalAddressCache.empty sample_env
               sample_stale
               ([SetFunctionReference "echo"; AddArgument (AInt32 5)]
                  ++ [SetFunctionReference "fail"; AddArgument (ABool true); Invoke])
               sample_memory).2)
       = l2.
Proof.
  destruct (rebinding_leaks_chain sample_engine sample_host
              ExternalAddressCache.empty sample_env sample_stale "echo" "fail"
              [AddArgument (AInt32 5)] [AddArgument (ABool true); Invoke]
              sample_memory 30 30 7%N 8%N eq_refl eq_refl eq_refl
              ltac:(repeat constructor) ltac:(repeat constructor) eq_refl)
    as (l2 & Hi & Hd & _).
  exists l2. split; [exact Hi | exact Hd].
Defined.
